(** * Todo mock API (services/mockApi.ts): a shallow embedding

    The module keeps an in-memory array of [Todo] records and exposes four
    asynchronous operations (fetchTodos, createTodo, updateTodo,
    deleteTodo).  Each one waits, may throw a synthetic error, and turns
    every thrown value into a response envelope.

    The embedding follows the TypeScript text:
    - JavaScript strings are sequences of UTF-16 code units ([list N]);
    - the module-level [todos] array, the system clock and [Math.random]
      form an explicit [World] that every operation threads through;
    - [throw] / [try ... catch] are an exception monad over that world;
    - the built-ins the code calls ([String.prototype.trim],
      [Date.prototype.toISOString], [Number.prototype.toString(36)],
      [Array.prototype.findIndex] / [splice]) are written out after
      ECMAScript. *)

From Stdlib Require Import ZArith NArith QArith String Ascii Sorted.
From stdpp Require Import base numbers list.

(** ** JavaScript strings *)

Abbreviation jsstring := (list N).

Definition ch (a : ascii) : N := N_of_ascii a.

Definition js (s : string) : jsstring := ch <$> list_ascii_of_string s.

(** [a === b] on strings. *)
Definition strictEq (a b : jsstring) : bool := bool_decide (a = b).

(** WhiteSpace and LineTerminator code points of ECMAScript, the ones
    [trim] strips: TAB, LF, VT, FF, CR, SP, NBSP, the Unicode
    space separators, LS, PS and ZWNBSP. *)
Definition isWhiteSpace (c : N) : bool :=
  bool_decide (c ∈ [9; 10; 11; 12; 13; 32; 160; 5760; 8232; 8233; 8239; 8287; 12288; 65279]%N)
  || ((8192 <=? c) && (c <=? 8202))%N.

Fixpoint trimStart (s : jsstring) : jsstring :=
  match s with
  | [] => []
  | c :: s' => if isWhiteSpace c then trimStart s' else s
  end.

Definition trimEnd (s : jsstring) : jsstring := reverse (trimStart (reverse s)).

(** [s.trim()] *)
Definition trim (s : jsstring) : jsstring := trimEnd (trimStart s).

(** [s.substr(start)] for a non-negative [start]. *)
Definition substr (start : nat) (s : jsstring) : jsstring := drop start s.

(** ** Numbers rendered in a radix *)

Definition digitChar (d : Z) : N :=
  Z.to_N (if d <? 10 then 48 + d else 87 + d)%Z.

Fixpoint radixDigits (fuel : nat) (radix n : Z) (acc : jsstring) : jsstring :=
  match fuel with
  | O => acc
  | S fuel' =>
      let acc' := digitChar (n mod radix) :: acc in
      if (n / radix =? 0)%Z then acc' else radixDigits fuel' radix (n / radix) acc'
  end.

(** [n.toString(radix)] for an integral Number [n]. *)
Definition Number_toString (radix : Z) (n : Z) : jsstring :=
  let digits m := radixDigits (S (Z.to_nat (Z.log2 m))) radix m [] in
  if (n <? 0)%Z then ch "-" :: digits (- n)%Z else digits n.

(** ** Time values and the date-time string format *)

Module Date.

Local Open Scope Z_scope.

Definition msPerDay : Z := 86400000.
Definition msPerHour : Z := 3600000.
Definition msPerMinute : Z := 60000.
Definition msPerSecond : Z := 1000.

Definition Day (t : Z) : Z := t / msPerDay.
Definition TimeWithinDay (t : Z) : Z := t mod msPerDay.

Definition isLeapYear (y : Z) : bool :=
  (y mod 4 =? 0) && (negb (y mod 100 =? 0) || (y mod 400 =? 0)).

Definition DaysInYear (y : Z) : Z := if isLeapYear y then 366 else 365.

(** Day number of 1 January of year [y] (day 0 is 1 January 1970). *)
Definition DayFromYear (y : Z) : Z :=
  365 * (y - 1970) + (y - 1969) / 4 - (y - 1901) / 100 + (y - 1601) / 400.

(** The year a day number falls in, counted in 400-, 100-, 4- and 1-year
    cycles from 1 January 1601. *)
Definition YearFromDay (d : Z) : Z :=
  let n := d + 134774 in
  let n400 := n / 146097 in
  let r := n mod 146097 in
  let n100 := Z.min (r / 36524) 3 in
  let r2 := r - n100 * 36524 in
  let n4 := r2 / 1461 in
  let r3 := r2 mod 1461 in
  let n1 := Z.min (r3 / 365) 3 in
  1601 + 400 * n400 + 100 * n100 + 4 * n4 + n1.

Definition YearFromTime (t : Z) : Z := YearFromDay (Day t).

Definition DayWithinYear (t : Z) : Z := Day t - DayFromYear (YearFromTime t).

(** Number of days of the year before month [m] (0 = January). *)
Definition daysBeforeMonth (leap : bool) (m : Z) : Z :=
  let l := if leap then 1 else 0 in
  if m <=? 0 then 0
  else if m =? 1 then 31
  else if m =? 2 then 59 + l
  else if m =? 3 then 90 + l
  else if m =? 4 then 120 + l
  else if m =? 5 then 151 + l
  else if m =? 6 then 181 + l
  else if m =? 7 then 212 + l
  else if m =? 8 then 243 + l
  else if m =? 9 then 273 + l
  else if m =? 10 then 304 + l
  else if m =? 11 then 334 + l
  else 365 + l.

Definition monthOfDay (leap : bool) (dayInYear : Z) : Z :=
  let before := daysBeforeMonth leap in
  if dayInYear <? before 1 then 0
  else if dayInYear <? before 2 then 1
  else if dayInYear <? before 3 then 2
  else if dayInYear <? before 4 then 3
  else if dayInYear <? before 5 then 4
  else if dayInYear <? before 6 then 5
  else if dayInYear <? before 7 then 6
  else if dayInYear <? before 8 then 7
  else if dayInYear <? before 9 then 8
  else if dayInYear <? before 10 then 9
  else if dayInYear <? before 11 then 10
  else 11.

Definition MonthFromTime (t : Z) : Z :=
  monthOfDay (isLeapYear (YearFromTime t)) (DayWithinYear t).

Definition DateFromTime (t : Z) : Z :=
  DayWithinYear t - daysBeforeMonth (isLeapYear (YearFromTime t)) (MonthFromTime t) + 1.

Definition HourFromTime (t : Z) : Z := (t / msPerHour) mod 24.
Definition MinFromTime (t : Z) : Z := (t / msPerMinute) mod 60.
Definition SecFromTime (t : Z) : Z := (t / msPerSecond) mod 60.
Definition msFromTime (t : Z) : Z := t mod msPerSecond.

Definition MakeTime (hour min sec ms : Z) : Z :=
  hour * msPerHour + min * msPerMinute + sec * msPerSecond + ms.

(** [month] is 0-based and within 0..11 here; [date] is 1-based. *)
Definition MakeDay (year month date : Z) : Z :=
  DayFromYear year + daysBeforeMonth (isLeapYear year) month + date - 1.

Definition MakeDate (day time : Z) : Z := day * msPerDay + time.

(** [width] decimal digits of [n], most significant first. *)
Fixpoint padDigits (width : nat) (n : Z) : jsstring :=
  match width with
  | O => []
  | S width' => padDigits width' (n / 10) ++ [Z.to_N (48 + n mod 10)]
  end.

Definition yearString (y : Z) : jsstring :=
  if (0 <=? y) && (y <=? 9999) then padDigits 4 y
  else if y <? 0 then ch "-" :: padDigits 6 (- y)
  else ch "+" :: padDigits 6 y.

(** [new Date(t).toISOString()]: YYYY-MM-DDTHH:mm:ss.sssZ, with the
    expanded year ±YYYYYY outside 0..9999. *)
Definition toISOString (t : Z) : jsstring :=
  yearString (YearFromTime t) ++ ch "-" :: padDigits 2 (MonthFromTime t + 1)
  ++ ch "-" :: padDigits 2 (DateFromTime t)
  ++ ch "T" :: padDigits 2 (HourFromTime t)
  ++ ch ":" :: padDigits 2 (MinFromTime t)
  ++ ch ":" :: padDigits 2 (SecFromTime t)
  ++ ch "." :: padDigits 3 (msFromTime t) ++ [ch "Z"].

(** *** Reading a date-time string back *)

Definition digitValue (c : N) : option Z :=
  if ((48 <=? c) && (c <=? 57))%N then Some (Z.of_N c - 48) else None.

Fixpoint takeDigits (width : nat) (acc : Z) (s : jsstring) : option (Z * jsstring) :=
  match width with
  | O => Some (acc, s)
  | S width' =>
      match s with
      | [] => None
      | c :: s' => d ← digitValue c; takeDigits width' (10 * acc + d) s'
      end
  end.

Definition expect (c : N) (s : jsstring) : option jsstring :=
  match s with
  | c' :: s' => if bool_decide (c' = c) then Some s' else None
  | [] => None
  end.

Definition takeYear (s : jsstring) : option (Z * jsstring) :=
  match s with
  | c :: s' =>
      if bool_decide (c = ch "+") then takeDigits 6 0 s'
      else if bool_decide (c = ch "-") then
        '(y, rest) ← takeDigits 6 0 s';
        if y =? 0 then None else Some (- y, rest)
      else takeDigits 4 0 s
  | [] => None
  end.

(** Optional fraction of a second: [.sss]. *)
Definition takeMillis (s : jsstring) : option (Z * jsstring) :=
  match s with
  | c :: s' => if bool_decide (c = ch ".") then takeDigits 3 0 s' else Some (0, s)
  | [] => Some (0, s)
  end.

(** YYYY, YYYY-MM or YYYY-MM-DD; a month or a day that is left out is 1. *)
Definition takeDate (s : jsstring) : option (Z * Z * Z * jsstring) :=
  '(year, s) ← takeYear s;
  match expect (ch "-") s with
  | None => Some (year, 1, 1, s)
  | Some s =>
      '(month, s) ← takeDigits 2 0 s;
      match expect (ch "-") s with
      | None => Some (year, month, 1, s)
      | Some s => '(date, s) ← takeDigits 2 0 s; Some (year, month, date, s)
      end
  end.

(** HH:mm, HH:mm:ss or HH:mm:ss.sss. *)
Definition takeTime (s : jsstring) : option (Z * Z * Z * Z * jsstring) :=
  '(hour, s) ← takeDigits 2 0 s;
  s ← expect (ch ":") s;
  '(min, s) ← takeDigits 2 0 s;
  match expect (ch ":") s with
  | None => Some (hour, min, 0, 0, s)
  | Some s =>
      '(sec, s) ← takeDigits 2 0 s;
      '(ms, s) ← takeMillis s;
      Some (hour, min, sec, ms, s)
  end.

(** The UTC offset that ends a date-time, in minutes east of Greenwich:
    Z, +HH:mm or -HH:mm.  A date-time that ends without one is a local
    time, whose time value depends on the time zone of the browser: it is
    not given a value here. *)
Definition takeOffset (s : jsstring) : option Z :=
  match s with
  | c :: s' =>
      if bool_decide (c = ch "Z") then
        if bool_decide (s' = []) then Some 0 else None
      else
        sign ← (if bool_decide (c = ch "+") then Some 1
                else if bool_decide (c = ch "-") then Some (-1) else None);
        '(hour, s) ← takeDigits 2 0 s';
        s ← expect (ch ":") s;
        '(min, s) ← takeDigits 2 0 s;
        if bool_decide (s = []) && (hour <=? 23) && (min <=? 59)
        then Some (sign * (hour * 60 + min)) else None
  | [] => None
  end.

(** Time values reach 100,000,000 days to either side of the epoch. *)
Definition TimeClip (t : Z) : option Z :=
  if (-8640000000000000 <=? t) && (t <=? 8640000000000000) then Some t else None.

(** [Date.parse] on the date-time string format of ECMAScript
    (sec. 21.4.1.32): a date YYYY, YYYY-MM or YYYY-MM-DD (year possibly
    expanded to ±YYYYYY), read as UTC when it stands alone, or a date
    followed by THH:mm, THH:mm:ss or THH:mm:ss.sss and the UTC offset Z,
    +HH:mm or -HH:mm; 24:00:00 is the midnight that ends the day.  The
    result is [Some t] where the format fixes the time value [t] of the
    string.  It is [None] where [Date.parse] gives NaN (as it does past
    the range of time values) and also where the format leaves the value
    to the engine or to the time zone of the browser: a date-time
    without offset, a field out of its range such as a day past the end
    of its month, a fraction not of three digits, any other notation.
    Theorems about time stamps are stated for strings that have a
    value. *)
Definition parse (s : jsstring) : option Z :=
  '(year, month, date, s) ← takeDate s;
  '(time, offset) ←
    (if bool_decide (s = []) then Some (0, 0)
     else
       s ← expect (ch "T") s;
       '(hour, min, sec, ms, s) ← takeTime s;
       offset ← takeOffset s;
       if ((hour <=? 23) && (min <=? 59) && (sec <=? 59))
          || ((hour =? 24) && (min =? 0) && (sec =? 0) && (ms =? 0))
       then Some (MakeTime hour min sec ms, offset) else None);
  if (1 <=? month) && (month <=? 12)
     && (1 <=? date)
     && (date <=? daysBeforeMonth (isLeapYear year) month
                  - daysBeforeMonth (isLeapYear year) (month - 1))
  then TimeClip (MakeDate (MakeDay year (month - 1) date) time - offset * msPerMinute)
  else None.

End Date.

(** ** Entity model (types/todo.ts) *)

Module Todo.
Record t : Type := mk {
  id : jsstring;
  title : jsstring;
  description : jsstring;
  completed : bool;
  createdAt : jsstring;
  updatedAt : jsstring
}.
End Todo.

Module CreateTodoRequest.
Record t : Type := mk {
  title : jsstring;
  description : jsstring
}.
End CreateTodoRequest.

(** An optional property ([title?: string]) is [None] when the payload
    does not carry it.  The callers build the payload from the fields
    they change ([{ id, ...updates }]); a property carried with the value
    [undefined] is not part of the model. *)
Module UpdateTodoRequest.
Record t : Type := mk {
  id : jsstring;
  title : option jsstring;
  description : option jsstring;
  completed : option bool
}.
End UpdateTodoRequest.

Record ApiResponse (T : Type) : Type := mkApiResponse {
  success : bool;
  data : option T;
  error : option jsstring;
  message : option jsstring
}.

Arguments mkApiResponse {T} _ _ _ _.
Arguments success {T} _.
Arguments data {T} _.
Arguments error {T} _.
Arguments message {T} _.

(** The type [null], the payload of a delete response. *)
Inductive JSNull : Type := null.

Abbreviation TodoListResponse := (ApiResponse (list Todo.t)).
Abbreviation TodoResponse := (ApiResponse Todo.t).
Abbreviation DeleteResponse := (ApiResponse JSNull).

(** ** The world the module runs in *)

(** A Number returned by [Math.random()]: its exact value (a double in
    [0, 1), hence a rational) and the string [toString(36)] yields for it,
    whose digits after the radix point ECMAScript leaves to the
    implementation. *)
Record RandomDraw : Type := mkDraw {
  value : Q;
  toString36 : jsstring
}.

(** [todos] is the module-level array; [clock n] is what the [n]-th read
    of the system clock returns (a time value in milliseconds) and
    [random n] what the [n]-th call of [Math.random] returns. *)
Record World : Type := mkWorld {
  todos : list Todo.t;
  clock : nat -> Z;
  clockReads : nat;
  random : nat -> RandomDraw;
  randomReads : nat
}.

(** What a [throw] statement can throw: an [Error] object with its
    message, or any other value. *)
Inductive Thrown : Type :=
  | Error (msg : jsstring)
  | NonError.

(** A computation either completes with a value or throws; the world it
    leaves behind is kept in both cases. *)
Definition M (A : Type) : Type := World -> (Thrown + A) * World.

#[global] Instance M_ret : MRet M := fun A a w => (inr a, w).

#[global] Instance M_bind : MBind M := fun A B k m w =>
  match m w with
  | (inr a, w') => k a w'
  | (inl e, w') => (inl e, w')
  end.

Definition throw {A} (e : Thrown) : M A := fun w => (inl e, w).

(** [if (b) { body }] *)
Definition when (b : bool) (body : M unit) : M unit :=
  if b then body else mret tt.

(** [try { return body } catch (error) { return handler(error) }] as the
    whole body of an async function: the promise always resolves. *)
Definition try_catch {A} (body : M A) (handler : Thrown -> A) : World -> A * World :=
  fun w =>
    match body w with
    | (inr a, w') => (a, w')
    | (inl e, w') => (handler e, w')
    end.

Definition Math_random : M RandomDraw :=
  fun w => (inr (random w (randomReads w)),
            mkWorld (todos w) (clock w) (clockReads w) (random w) (S (randomReads w))).

(** [Date.now()]; [new Date()] captures the same reading. *)
Definition Date_now : M Z :=
  fun w => (inr (clock w (clockReads w)),
            mkWorld (todos w) (clock w) (S (clockReads w)) (random w) (randomReads w)).

Definition getTodos : M (list Todo.t) := fun w => (inr (todos w), w).

Definition setTodos (l : list Todo.t) : M unit :=
  fun w => (inr tt, mkWorld l (clock w) (clockReads w) (random w) (randomReads w)).

(** ** Arrays *)

Fixpoint findIndexFrom {A} (p : A -> bool) (l : list A) (i : Z) : Z :=
  match l with
  | [] => (-1)%Z
  | x :: l' => if p x then i else findIndexFrom p l' (i + 1)%Z
  end.

(** [l.findIndex(p)]: the first index whose element satisfies [p], or -1. *)
Definition findIndex {A} (p : A -> bool) (l : list A) : Z := findIndexFrom p l 0.

(** [l[i]]: [None] is [undefined]. *)
Definition index {A} (l : list A) (i : Z) : option A :=
  if (i <? 0)%Z then None else l !! Z.to_nat i.

(** [l.splice(start, deleteCount)], the array left behind. *)
Definition splice {A} (start deleteCount : Z) (l : list A) : list A :=
  let len := Z.of_nat (length l) in
  let from := if (start <? 0)%Z then Z.max (len + start) 0 else Z.min start len in
  let count := Z.min (Z.max deleteCount 0) (len - from) in
  take (Z.to_nat from) l ++ drop (Z.to_nat (from + count)) l.

(** ** services/mockApi.ts *)

Definition seed : list Todo.t :=
  [ Todo.mk (js "1") (js "Go to the gym") (js "Build up my body for summer time")
      false (js "2025-09-01T11:00:00Z") (js "2025-09-01T10:00:00Z");
    Todo.mk (js "2") (js "Wait fo FC26 to be launched") (js "Cant wait to see the new features")
      true (js "2025-09-07T11:00:00Z") (js "2025-09-08T12:00:00Z");
    Todo.mk (js "3") (js "Update my portfolio") (js "Add my recent projects")
      false (js "2025-09-03T13:00:00Z") (js "2025-09-05T13:00:00Z") ].

(** The state of the module when it is loaded. *)
Definition initialWorld (clock : nat -> Z) (random : nat -> RandomDraw) : World :=
  mkWorld seed clock 0 random 0.

(** [await delay(ms)]: the call is suspended and resumed later; nothing
    of the world is read or written before the delay, so the rest of the
    body runs against the world found on resumption. *)
Definition delay (ms : Z) : M unit := mret tt.

(** The double nearest to 0.05, which is what the literal denotes:
    3602879701896397 / 2^56. *)
Definition threshold : Q := 3602879701896397 # 72057594037927936.

Definition Qltb (a b : Q) : bool := negb (Qle_bool b a).

Definition shouldFail (operation : option jsstring) : M bool :=
  if bool_decide (operation = Some (js "fetch")) then mret false
  else r ← Math_random; mret (Qltb (value r) threshold).

Definition generateId : M jsstring :=
  now ← Date_now;
  r ← Math_random;
  mret (Number_toString 36 now ++ substr 2 (toString36 r)).

(** [error instanceof Error ? error.message : 'Unknown error occurred'] *)
Definition errorMessage (e : Thrown) : jsstring :=
  match e with
  | Error msg => msg
  | NonError => js "Unknown error occurred"
  end.

Definition failure {T} (e : Thrown) : ApiResponse T :=
  {| success := false; data := None; error := Some (errorMessage e); message := None |}.

Definition fetchTodos : World -> TodoListResponse * World :=
  try_catch
    (delay 800 ;;
     fail ← shouldFail (Some (js "fetch"));
     when fail (throw (Error (js "Failed to fetch todos. Please try again."))) ;;
     current ← getTodos;
     mret {| success := true;
            data := Some current;
            error := None;
            message := Some (js "Todos fetched successfully") |})
    failure.

Definition createTodo (todoData : CreateTodoRequest.t) : World -> TodoResponse * World :=
  try_catch
    (delay 600 ;;
     fail ← shouldFail None;
     when fail (throw (Error (js "Failed to create todo. Please try again."))) ;;
     newId ← generateId;
     created ← Date_now;
     updated ← Date_now;
     let newTodo :=
       {| Todo.id := newId;
          Todo.title := trim (CreateTodoRequest.title todoData);
          Todo.description := trim (CreateTodoRequest.description todoData);
          Todo.completed := false;
          Todo.createdAt := Date.toISOString created;
          Todo.updatedAt := Date.toISOString updated |} in
     current ← getTodos;
     setTodos (current ++ [newTodo]) ;;
     mret {| success := true;
            data := Some newTodo;
            error := None;
            message := Some (js "Todo created successfully") |})
    failure.

(** [{ ...old, ...todoData, updatedAt }]: the payload's own properties
    ([id] always, the optional ones when present) overwrite those of the
    stored record, then [updatedAt] is set. *)
Definition merge (old : Todo.t) (todoData : UpdateTodoRequest.t) (updatedAt : jsstring) : Todo.t :=
  {| Todo.id := UpdateTodoRequest.id todoData;
     Todo.title := default (Todo.title old) (UpdateTodoRequest.title todoData);
     Todo.description := default (Todo.description old) (UpdateTodoRequest.description todoData);
     Todo.completed := default (Todo.completed old) (UpdateTodoRequest.completed todoData);
     Todo.createdAt := Todo.createdAt old;
     Todo.updatedAt := updatedAt |}.

Definition updateTodo (todoData : UpdateTodoRequest.t) : World -> TodoResponse * World :=
  try_catch
    (delay 500 ;;
     fail ← shouldFail None;
     when fail (throw (Error (js "Failed to update todo. Please try again."))) ;;
     current ← getTodos;
     let todoIndex :=
       findIndex (fun todo => strictEq (Todo.id todo) (UpdateTodoRequest.id todoData)) current in
     when (todoIndex =? -1)%Z (throw (Error (js "Todo not found"))) ;;
     match index current todoIndex with
     | Some old =>
         now ← Date_now;
         let updatedTodo := merge old todoData (Date.toISOString now) in
         setTodos (<[Z.to_nat todoIndex := updatedTodo]> current) ;;
         mret {| success := true;
                data := Some updatedTodo;
                error := None;
                message := Some (js "Todo updated successfully") |}
     | None =>
         (* [todos[todoIndex]] is [undefined]: not reached, [findIndex]
            answers -1 or an index of the array (see [findIndex_index]) *)
         throw NonError
     end)
    failure.

Definition deleteTodo (id : jsstring) : World -> DeleteResponse * World :=
  try_catch
    (delay 400 ;;
     fail ← shouldFail None;
     when fail (throw (Error (js "Failed to delete todo. Please try again."))) ;;
     current ← getTodos;
     let todoIndex := findIndex (fun todo => strictEq (Todo.id todo) id) current in
     when (todoIndex =? -1)%Z (throw (Error (js "Todo not found"))) ;;
     setTodos (splice todoIndex 1 current) ;;
     mret {| success := true;
            data := Some null;
            error := None;
            message := Some (js "Todo deleted successfully") |})
    (fun e =>
       {| success := false;
          data := None;
          error := Some (errorMessage e);
          message := Some (js "Failed to delete todo") |}).

(** ** A client of the module *)

(** The four exported operations, as a caller issues them.  Overlapping
    calls resume one after the other, each running from its [delay] to
    its [return] without suspension, so every execution of the module
    is a sequence of such calls. *)
Inductive Call : Type :=
  | Fetch
  | Create (todoData : CreateTodoRequest.t)
  | Update (todoData : UpdateTodoRequest.t)
  | Delete (id : jsstring).

Inductive Reply : Type :=
  | FetchReply (r : TodoListResponse)
  | CreateReply (r : TodoResponse)
  | UpdateReply (r : TodoResponse)
  | DeleteReply (r : DeleteResponse).

Definition invoke (c : Call) (w : World) : Reply * World :=
  match c with
  | Fetch => prod_map FetchReply id (fetchTodos w)
  | Create todoData => prod_map CreateReply id (createTodo todoData w)
  | Update todoData => prod_map UpdateReply id (updateTodo todoData w)
  | Delete i => prod_map DeleteReply id (deleteTodo i w)
  end.

Definition succeeded (r : Reply) : bool :=
  match r with
  | FetchReply r => success r
  | CreateReply r => success r
  | UpdateReply r => success r
  | DeleteReply r => success r
  end.

Fixpoint run (calls : list Call) (w : World) : World :=
  match calls with
  | [] => w
  | c :: calls' => run calls' (invoke c w).2
  end.

(** The ids held by the store. *)
Definition ids (w : World) : list jsstring := Todo.id <$> todos w.

(** The draw the next call of [Math.random] returns, and whether
    [shouldFail()] turns it into an injected failure. *)
Definition nextDraw (w : World) : RandomDraw := random w (randomReads w).
Definition injected (w : World) : bool := Qltb (value (nextDraw w)) threshold.

(** The reading the next look at the clock returns. *)
Definition nextClock (w : World) : Z := clock w (clockReads w).

(** The world once [n] draws and [k] clock readings have been consumed. *)
Definition consumed (n k : nat) (w : World) : World :=
  mkWorld (todos w) (clock w) (k + clockReads w) (random w) (n + randomReads w).

(** ** Names for what the operations build *)

Definition fetched (w : World) : TodoListResponse :=
  {| success := true;
     data := Some (todos w);
     error := None;
     message := Some (js "Todos fetched successfully") |}.

(** The record [createTodo] builds in world [w]: the clock is read for
    the id, then for [createdAt], then for [updatedAt]; the second draw
    of the call feeds the id. *)
Definition newTodo (todoData : CreateTodoRequest.t) (w : World) : Todo.t :=
  {| Todo.id := Number_toString 36 (clock w (clockReads w))
                ++ substr 2 (toString36 (random w (S (randomReads w))));
     Todo.title := trim (CreateTodoRequest.title todoData);
     Todo.description := trim (CreateTodoRequest.description todoData);
     Todo.completed := false;
     Todo.createdAt := Date.toISOString (clock w (S (clockReads w)));
     Todo.updatedAt := Date.toISOString (clock w (S (S (clockReads w)))) |}.

Definition todoIndexOf (i : jsstring) (w : World) : Z :=
  findIndex (fun todo => strictEq (Todo.id todo) i) (todos w).

Definition deleteFailure (e : Thrown) : DeleteResponse :=
  {| success := false;
     data := None;
     error := Some (errorMessage e);
     message := Some (js "Failed to delete todo") |}.

(** ** Vocabulary of the properties *)

Fixpoint startsWith (p s : jsstring) : bool :=
  match p, s with
  | [], _ => true
  | a :: p', b :: s' => bool_decide (a = b) && startsWith p' s'
  | _ :: _, [] => false
  end.

(** [s.includes(needle)] *)
Fixpoint includes (needle s : jsstring) : bool :=
  startsWith needle s
  || match s with
     | [] => false
     | _ :: s' => includes needle s'
     end.

(** An envelope whose [error] speaks of a record that was not found. *)
Definition notFoundClass {T} (r : ApiResponse T) : bool :=
  match error r with
  | Some e => includes (js "not found") e
  | None => false
  end.

(** Timestamps compared as instants, the way the list view sorts them
    ([new Date(a).getTime()]); a comparison with NaN is false, and a
    string to which [Date.parse] gives no value counts as NaN. *)
Definition instantLeb (a b : jsstring) : bool :=
  match Date.parse a, Date.parse b with
  | Some x, Some y => (x <=? y)%Z
  | _, _ => false
  end.

Definition instantLtb (a b : jsstring) : bool :=
  match Date.parse a, Date.parse b with
  | Some x, Some y => (x <? y)%Z
  | _, _ => false
  end.

(** [updatedAt] ≥ [createdAt] *)
Definition stampsOrdered (r : Todo.t) : bool :=
  instantLeb (Todo.createdAt r) (Todo.updatedAt r).

(** Every field of a record but [updatedAt]. *)
Definition exceptUpdatedAt (r : Todo.t) : jsstring * jsstring * jsstring * bool * jsstring :=
  (Todo.id r, Todo.title r, Todo.description r, Todo.completed r, Todo.createdAt r).

(** The shape of an envelope: a success carries [data] and [message]
    and no [error]; a failure carries a non-empty [error] and no [data]. *)
Definition wellFormed {T} (r : ApiResponse T) : Prop :=
  if success r
  then is_Some (data r) ∧ is_Some (message r) ∧ error r = None
  else (∃ e, error r = Some e ∧ e ≠ []) ∧ data r = None.

Definition replyWellFormed (r : Reply) : Prop :=
  match r with
  | FetchReply r => wellFormed r
  | CreateReply r => wellFormed r
  | UpdateReply r => wellFormed r
  | DeleteReply r => wellFormed r
  end.

(** Along a run, every record a [Create] hands back carries an id that
    no record of the store had when the call resumed. *)
Fixpoint createsFreshIds (calls : list Call) (w : World) : bool :=
  match calls with
  | [] => true
  | c :: calls' =>
      match c with
      | Create todoData =>
          match data (createTodo todoData w).1 with
          | Some r => bool_decide (Todo.id r ∉ ids w)
          | None => true
          end
      | _ => true
      end
      && createsFreshIds calls' (invoke c w).2
  end.

(** What [generateId] joins when it is called in world [w] after the
    draw of [shouldFail]: the reading of the clock, and the rendering of
    the next draw in base 36 less its first two characters. *)
Definition idParts (w : World) : Z * jsstring :=
  (nextClock w, substr 2 (toString36 (random w (S (randomReads w))))).

(** The parts from which the creates of a run generate their ids, one
    pair for each create that meets no injected failure. *)
Fixpoint generatedParts (calls : list Call) (w : World) : list (Z * jsstring) :=
  match calls with
  | [] => []
  | c :: calls' =>
      match c with
      | Create _ => if injected w then [] else [idParts w]
      | _ => []
      end ++ generatedParts calls' (invoke c w).2
  end.

(** The positive numbers whose rendering in base 36 has [n] digits. *)
Definition digits36 (n : nat) (t : Z) : Prop :=
  (36 ^ (Z.of_nat n - 1) <= t < 36 ^ Z.of_nat n)%Z.

(** *** Sample worlds *)

(** A clock that advances one millisecond per reading, from
    2025-09-01T11:00:00.000Z. *)
Definition tickingClock (n : nat) : Z := (1756724400000 + Z.of_nat n)%Z.

(** A clock that shows the same millisecond at every reading. *)
Definition frozenClock (n : nat) : Z := 1756724400000%Z.

(** [Math.random()] returning 0.5 every time: no injected failure. *)
Definition calm (n : nat) : RandomDraw := mkDraw (1 # 2) (js "0.i").

(** [Math.random()] returning 0 every time: every draw is below 0.05. *)
Definition stormy (n : nat) : RandomDraw := mkDraw 0 (js "0").

(** [Math.random()] returning 0.5, 0.25, 0.5, 0.75 and so on round: no
    injected failure, and draws that differ from one call to the next. *)
Definition assorted (n : nat) : RandomDraw :=
  match (n mod 4)%nat with
  | 1%nat => mkDraw (1 # 4) (js "0.9")
  | 3%nat => mkDraw (3 # 4) (js "0.r")
  | _ => mkDraw (1 # 2) (js "0.i")
  end.

(** A clock that shows 1 ms after the epoch, and draws 0.5 and then 0,
    whose rendering "0" leaves nothing after its first two characters. *)
Definition atTheEpoch (n : nat) : Z := 1%Z.

Definition halfThenZero (n : nat) : RandomDraw :=
  match n with
  | 1%nat => mkDraw 0 (js "0")
  | _ => mkDraw (1 # 2) (js "0.i")
  end.

(** A clock that shows 36 ms ("10" in base 36) and, from the fourth
    reading on, 1296 ms ("100"), with draws 0.5 where [shouldFail] draws
    and 1/64 ("0.0k9") and then 9/16 ("0.k9") where [generateId] does. *)
Definition earlyClock (n : nat) : Z := if (n <? 3)%nat then 36%Z else 1296%Z.

Definition dyadicDraws (n : nat) : RandomDraw :=
  match n with
  | 1%nat => mkDraw (1 # 64) (js "0.0k9")
  | 3%nat => mkDraw (9 # 16) (js "0.k9")
  | _ => mkDraw (1 # 2) (js "0.i")
  end.

Definition buyMilk : CreateTodoRequest.t :=
  CreateTodoRequest.mk (js "Buy milk") (js "2 liters").

(** The time values a Date can hold, which are those the clock shows. *)
Definition timeValue (t : Z) : Prop :=
  (-8640000000000000 <= t <= 8640000000000000)%Z.

(** A clock that shows time values and never runs backwards. *)
Definition saneClock (w : World) : Prop :=
  (∀ n : nat, timeValue (clock w n))
  ∧ (∀ n m : nat, (n ≤ m)%nat → (clock w n <= clock w m)%Z).

(** Every record of the store was created no later than the clock shows
    now. *)
Definition createdByNow (w : World) : Prop :=
  ∀ r : Todo.t, r ∈ todos w →
    ∃ t : Z, Date.parse (Todo.createdAt r) = Some t ∧ (t <= nextClock w)%Z.

(** * More vocabulary for the mock API *)

(** The id an update or a delete is aimed at, if the call is one. *)
Definition target (c : Call) : option jsstring :=
  match c with
  | Update todoData => Some (UpdateTodoRequest.id todoData)
  | Delete i => Some i
  | _ => None
  end.

(** The value of a digit character, [0-9a-z]. *)
Definition digitOf (c : N) : Z :=
  if (c <? 58)%N then (Z.of_N c - 48)%Z else (Z.of_N c - 87)%Z.

(** The number a string of digits denotes in a radix, as [parseInt]
    reads it. *)
Definition fromDigits (radix : Z) (s : jsstring) : Z :=
  fold_left (λ acc c, (acc * radix + digitOf c)%Z) s 0%Z.

(** Clock readings whose rendering in base 36 has eight digits:
    from 25 June 1972 to 25 May 2059. *)
Definition eightDigits (t : Z) : Prop := (36 ^ 7 <= t < 36 ^ 8)%Z.

(** The readings of the clock from which the creates of a run that meet
    no injected failure generate their ids. *)
Fixpoint idReadings (calls : list Call) (w : World) : list Z :=
  match calls with
  | [] => []
  | c :: calls' =>
      match c with
      | Create _ => if injected w then [] else [nextClock w]
      | _ => []
      end ++ idReadings calls' (invoke c w).2
  end.

(** * The user interface

    The React components hold their state in [useState] cells and change
    it from event handlers.  A component is embedded as a record of its
    cells and each handler as a function on that record; what a handler
    hands to a callback prop ([onSubmit], [onUpdate]) is part of its
    result. *)

(** The error messages of a form, [{ title?: string; description?: string }]:
    [None] is a key that is absent or [undefined]. *)
Module FormErrors.
Record t : Type := mk {
  title : option jsstring;
  description : option jsstring
}.
(** [{}] *)
Definition empty : t := mk None None.
(** [Object.keys(newErrors).length === 0], for an object built by
    assignments to its keys. *)
Definition noKeys (e : t) : bool :=
  match title e, description e with
  | None, None => true
  | _, _ => false
  end.
End FormErrors.

(** ** components/AddTodoForm.tsx *)

Module AddTodoForm.

Record State : Type := mkState {
  formData : CreateTodoRequest.t;
  errors : FormErrors.t
}.

Definition initial : State :=
  mkState (CreateTodoRequest.mk (js "") (js "")) FormErrors.empty.

(** Returns what the function returns and the state after [setErrors]. *)
Definition validateForm (s : State) : bool * State :=
  let title := trim (CreateTodoRequest.title (formData s)) in
  let description := trim (CreateTodoRequest.description (formData s)) in
  let newErrors :=
    {| FormErrors.title :=
         if bool_decide (title = []) then Some (js "Title is required")
         else if (length title <? 3)%nat
              then Some (js "Title must be at least 3 characters long")
              else None;
       FormErrors.description :=
         if bool_decide (description = []) then Some (js "Description is required")
         else if (length description <? 5)%nat
              then Some (js "Description must be at least 5 characters long")
              else None |} in
  (FormErrors.noKeys newErrors, mkState (formData s) newErrors).

(** The state after the handler, and the argument [onSubmit] was called
    with, if it was called. *)
Definition handleSubmit (s : State) : State * option CreateTodoRequest.t :=
  let (valid, s') := validateForm s in
  if valid
  then (mkState (CreateTodoRequest.mk (js "") (js "")) FormErrors.empty, Some (formData s))
  else (s', None).

End AddTodoForm.

(** ** components/TodoItem.tsx *)

(** [Partial<Omit<Todo, 'id' | 'createdAt' | 'updatedAt'>>], what
    [onUpdate] is called with. *)
Module Updates.
Record t : Type := mk {
  title : option jsstring;
  description : option jsstring;
  completed : option bool
}.
End Updates.

Module TodoItem.

Record EditData : Type := mkEditData {
  title : jsstring;
  description : jsstring
}.

Record State : Type := mkState {
  isEditing : bool;
  editData : EditData;
  editErrors : FormErrors.t
}.

(** The arguments [onUpdate] is called with. *)
Definition handleToggleComplete (todo : Todo.t) : jsstring * Updates.t :=
  (Todo.id todo, Updates.mk None None (Some (negb (Todo.completed todo)))).

Definition validateEditForm (s : State) : bool * State :=
  let title := trim (title (editData s)) in
  let description := trim (description (editData s)) in
  let newErrors :=
    {| FormErrors.title :=
         if bool_decide (title = []) then Some (js "Title is required")
         else if (length title <? 3)%nat
              then Some (js "Title must be at least 3 characters long")
              else None;
       FormErrors.description :=
         if bool_decide (description = []) then Some (js "Description is required")
         else if (length description <? 5)%nat
              then Some (js "Description must be at least 5 characters long")
              else None |} in
  (FormErrors.noKeys newErrors, mkState (isEditing s) (editData s) newErrors).

(** The state after the handler, and the arguments [onUpdate] was called
    with, if it was called. *)
Definition handleSaveEdit (todo : Todo.t) (s : State) : State * option (jsstring * Updates.t) :=
  let (valid, s') := validateEditForm s in
  if valid
  then (mkState false (editData s) FormErrors.empty,
        Some (Todo.id todo,
              Updates.mk (Some (trim (title (editData s))))
                         (Some (trim (description (editData s)))) None))
  else (s', None).

(** [todo.updatedAt !== todo.createdAt], the condition under which the
    "Updated:" line is rendered. *)
Definition showsUpdated (todo : Todo.t) : bool :=
  negb (strictEq (Todo.updatedAt todo) (Todo.createdAt todo)).

End TodoItem.

(** ** components/TodoList.tsx *)

(** What a comparator returns counts by its sign only; NaN counts as 0. *)
Fixpoint insertSorted {A} (compareFn : A → A → Z) (x : A) (l : list A) : list A :=
  match l with
  | [] => [x]
  | y :: l' =>
      if (compareFn x y <=? 0)%Z then x :: y :: l'
      else y :: insertSorted compareFn x l'
  end.

(** [[...l].sort(compareFn)].  The sort of ECMAScript is stable, and for
    a consistent comparator its result is fixed: the sorted arrangement
    in which items that compare equal keep their order.  Inserting the
    items from the last to the first, each before the first item it does
    not come after, computes that arrangement. *)
Definition Array_sort {A} (compareFn : A → A → Z) (l : list A) : list A :=
  foldr (insertSorted compareFn) [] l.

(** [new Date(s).getTime()]; [None] is NaN, and stands in as well for
    the strings to which [Date.parse] gives no value. *)
Definition getTime (s : jsstring) : option Z := Date.parse s.

(** [x - y] on two such numbers, with NaN (which [sort] takes for 0)
    when either is NaN. *)
Definition difference (x y : option Z) : Z :=
  match x, y with
  | Some a, Some b => (a - b)%Z
  | _, _ => 0%Z
  end.

Module TodoList.

Inductive FilterType : Type := all | active | completed.
Inductive SortType : Type := newest | oldest | title | status.

Section with_collation.

(** [a.localeCompare(b)] depends on the locale of the browser. *)
Variable localeCompare : jsstring → jsstring → Z.

Definition compareTodos (sortBy : SortType) (a b : Todo.t) : Z :=
  match sortBy with
  | newest => difference (getTime (Todo.createdAt b)) (getTime (Todo.createdAt a))
  | oldest => difference (getTime (Todo.createdAt a)) (getTime (Todo.createdAt b))
  | title => localeCompare (Todo.title a) (Todo.title b)
  | status =>
      if bool_decide (Todo.completed a = Todo.completed b) then 0%Z
      else if Todo.completed a then 1%Z else (-1)%Z
  end.

Definition filteredAndSortedTodos
    (todos : list Todo.t) (filter : FilterType) (sortBy : SortType) : list Todo.t :=
  let filtered :=
    match filter with
    | active => base.filter (λ todo, Todo.completed todo = false) todos
    | completed => base.filter (λ todo, Todo.completed todo = true) todos
    | all => todos
    end in
  Array_sort (compareTodos sortBy) filtered.

End with_collation.

(** [{ total, completed, active }] *)
Module Stats.
Record t : Type := mk {
  total : nat;
  completed : nat;
  active : nat
}.
End Stats.

Definition stats (todos : list Todo.t) : Stats.t :=
  let total := length todos in
  let completed := length (base.filter (λ todo, Todo.completed todo = true) todos) in
  Stats.mk total completed (total - completed).

(** What the component renders: the "No todos yet" panel, or the
    controls with the items and, possibly, the "No todos match the
    current filter" message. *)
Inductive View : Type :=
  | NoTodosYet
  | Listing (stats : Stats.t) (items : list Todo.t) (noMatch : bool).

Definition render (localeCompare : jsstring → jsstring → Z)
    (todos : list Todo.t) (filter : FilterType) (sortBy : SortType) : View :=
  if bool_decide (length todos = 0%nat) then NoTodosYet
  else
    let items := filteredAndSortedTodos localeCompare todos filter sortBy in
    Listing (stats todos) items
            (bool_decide (length items = 0%nat) && bool_decide (0 < length todos)%nat).

End TodoList.

(** The filter a record passes. *)
Definition passes (filter : TodoList.FilterType) (todo : Todo.t) : Prop :=
  match filter with
  | TodoList.all => True
  | TodoList.active => Todo.completed todo = false
  | TodoList.completed => Todo.completed todo = true
  end.

#[global] Instance passes_dec (filter : TodoList.FilterType) (todo : Todo.t) :
  Decision (passes filter todo).
Proof. destruct filter; cbn [passes]; apply _. Defined.

(** ** App.tsx *)

Module AppState.
Record t : Type := mk {
  todos : list Todo.t;
  isLoading : bool;
  error : option jsstring;
  isCreating : bool;
  updatingTodoId : option jsstring;
  deletingTodoId : option jsstring
}.
End AppState.

(** The page: the cells of the [App] component and the world of the
    mock API module it imports. *)
Record Page : Type := mkPage {
  ui : AppState.t;
  api : World
}.

Module App.

(** Code of the component: it completes or throws, and leaves a page. *)
Definition UI (A : Type) : Type := Page → (Thrown + A) * Page.

#[global] Instance UI_ret : MRet UI := fun A a p => (inr a, p).

#[global] Instance UI_bind : MBind UI := fun A B k m p =>
  match m p with
  | (inr a, p1) => k a p1
  | (inl e, p1) => (inl e, p1)
  end.

(** [try { body } catch (err) { handler } finally { final }] *)
Definition try_catch_finally (body : UI unit) (handler : Thrown → UI unit) (final : UI unit)
  : UI unit :=
  fun p =>
    match body p with
    | (inr _, p1) => final p1
    | (inl e, p1) =>
        match handler e p1 with
        | (inr _, p2) => final p2
        | (inl e2, p2) =>
            match final p2 with
            | (inr _, p3) => (inl e2, p3)
            | thrown => thrown
            end
        end
    end.

(** [await call(...)] for an operation of the mock API, from the moment
    its delay is over. *)
Definition await {A} (call : World → A * World) : UI A :=
  fun p => let (a, w) := call (api p) in (inr a, mkPage (ui p) w).

Definition modify (f : AppState.t → AppState.t) : UI unit :=
  fun p => (inr tt, mkPage (f (ui p)) (api p)).

(** The setters of the [useState] cells; [setTodos] takes an updater. *)
Definition setTodos (f : list Todo.t → list Todo.t) : UI unit :=
  modify (fun s => AppState.mk (f (AppState.todos s)) (AppState.isLoading s) (AppState.error s)
                     (AppState.isCreating s) (AppState.updatingTodoId s)
                     (AppState.deletingTodoId s)).

Definition setIsLoading (b : bool) : UI unit :=
  modify (fun s => AppState.mk (AppState.todos s) b (AppState.error s)
                     (AppState.isCreating s) (AppState.updatingTodoId s)
                     (AppState.deletingTodoId s)).

Definition setError (e : option jsstring) : UI unit :=
  modify (fun s => AppState.mk (AppState.todos s) (AppState.isLoading s) e
                     (AppState.isCreating s) (AppState.updatingTodoId s)
                     (AppState.deletingTodoId s)).

Definition setIsCreating (b : bool) : UI unit :=
  modify (fun s => AppState.mk (AppState.todos s) (AppState.isLoading s) (AppState.error s)
                     b (AppState.updatingTodoId s) (AppState.deletingTodoId s)).

Definition setUpdatingTodoId (i : option jsstring) : UI unit :=
  modify (fun s => AppState.mk (AppState.todos s) (AppState.isLoading s) (AppState.error s)
                     (AppState.isCreating s) i (AppState.deletingTodoId s)).

Definition setDeletingTodoId (i : option jsstring) : UI unit :=
  modify (fun s => AppState.mk (AppState.todos s) (AppState.isLoading s) (AppState.error s)
                     (AppState.isCreating s) (AppState.updatingTodoId s) i).

(** [response.error || fallback]: an absent or empty string is falsy. *)
Definition orElse (e : option jsstring) (fallback : jsstring) : jsstring :=
  match e with
  | Some (c :: s) => c :: s
  | _ => fallback
  end.

(** [{ id, ...updates }] *)
Definition withId (id : jsstring) (updates : Updates.t) : UpdateTodoRequest.t :=
  UpdateTodoRequest.mk id (Updates.title updates) (Updates.description updates)
    (Updates.completed updates).

(** Each handler is an async function whose [try] block sets some cells,
    awaits one operation of the mock API and goes on with the response.
    Nothing before the [await] can throw, and the operation does nothing
    before its delay is over, so a handler is two steps, [_start] when it
    is called and [_resume] when the delay is over; handlers that overlap
    interleave their steps. *)

Definition loadTodos_start : UI unit :=
  setIsLoading true;; setError None.

Definition loadTodos_resume : UI unit :=
  try_catch_finally
    (response ← await fetchTodos;
     match success response, data response with
     | true, Some fetched => setTodos (fun _ => fetched)
     | _, _ => setError (Some (orElse (error response) (js "Failed to load todos")))
     end)
    (fun _ => setError (Some (js "An unexpected error occurred while loading todos")))
    (setIsLoading false).

Definition handleCreateTodo_start : UI unit :=
  setIsCreating true;; setError None.

Definition handleCreateTodo_resume (todoData : CreateTodoRequest.t) : UI unit :=
  try_catch_finally
    (response ← await (createTodo todoData);
     match success response, data response with
     | true, Some created => setTodos (fun prev => created :: prev)
     | _, _ => setError (Some (orElse (error response) (js "Failed to create todo")))
     end)
    (fun _ => setError (Some (js "An unexpected error occurred while creating todo")))
    (setIsCreating false).

Definition handleUpdateTodo_start (id : jsstring) : UI unit :=
  setUpdatingTodoId (Some id);; setError None.

Definition handleUpdateTodo_resume (id : jsstring) (updates : Updates.t) : UI unit :=
  try_catch_finally
    (response ← await (updateTodo (withId id updates));
     match success response, data response with
     | true, Some updated =>
         setTodos (fun prev =>
                     (fun todo => if strictEq (Todo.id todo) id then updated else todo) <$> prev)
     | _, _ => setError (Some (orElse (error response) (js "Failed to update todo")))
     end)
    (fun _ => setError (Some (js "An unexpected error occurred while updating todo")))
    (setUpdatingTodoId None).

Definition handleDeleteTodo_start (id : jsstring) : UI unit :=
  setDeletingTodoId (Some id);; setError None.

Definition handleDeleteTodo_resume (id : jsstring) : UI unit :=
  try_catch_finally
    (response ← await (deleteTodo id);
     if success response
     then setTodos (fun prev => base.filter (fun todo => Todo.id todo ≠ id) prev)
     else setError (Some (orElse (error response) (js "Failed to delete todo"))))
    (fun _ => setError (Some (js "An unexpected error occurred while deleting todo")))
    (setDeletingTodoId None).

Definition handleClearError : UI unit := setError None.

(** The cells as [useState] initialises them. *)
Definition initialState : AppState.t :=
  AppState.mk [] true None false None None.

(** What happens on the page, one step at a time. *)
Inductive Step : Type :=
  | LoadStart
  | LoadResume
  | CreateStart
  | CreateResume (todoData : CreateTodoRequest.t)
  | UpdateStart (id : jsstring)
  | UpdateResume (id : jsstring) (updates : Updates.t)
  | DeleteStart (id : jsstring)
  | DeleteResume (id : jsstring)
  | ClearError.

Definition step (s : Step) : UI unit :=
  match s with
  | LoadStart => loadTodos_start
  | LoadResume => loadTodos_resume
  | CreateStart => handleCreateTodo_start
  | CreateResume todoData => handleCreateTodo_resume todoData
  | UpdateStart id => handleUpdateTodo_start id
  | UpdateResume id updates => handleUpdateTodo_resume id updates
  | DeleteStart id => handleDeleteTodo_start id
  | DeleteResume id => handleDeleteTodo_resume id
  | ClearError => handleClearError
  end.

Fixpoint steps (l : list Step) (p : Page) : Page :=
  match l with
  | [] => p
  | s :: l' => steps l' (step s p).2
  end.

(** The operation of the mock API a step lets run, if any. *)
Definition callOf (s : Step) : option Call :=
  match s with
  | LoadResume => Some Fetch
  | CreateResume todoData => Some (Create todoData)
  | UpdateResume id updates => Some (Update (withId id updates))
  | DeleteResume id => Some (Delete id)
  | _ => None
  end.

(** The page when the component has mounted and its effect has called
    [loadTodos]. *)
Definition mounted (clock : nat → Z) (random : nat → RandomDraw) : Page :=
  (loadTodos_start (mkPage initialState (initialWorld clock random))).2.

End App.

(** The [error] of the envelope a call was answered with. *)
Definition replyError (r : Reply) : option jsstring :=
  match r with
  | FetchReply r => error r
  | CreateReply r => error r
  | UpdateReply r => error r
  | DeleteReply r => error r
  end.

(** The operations of the mock API that a sequence of steps lets run. *)
Definition callsOf (l : list App.Step) : list Call := omap App.callOf l.

(** * Properties *)

(** ** The built-ins on sample inputs *)

Example ex_iso_epoch : Date.toISOString 0 = js "1970-01-01T00:00:00.000Z".
Proof. vm_compute. reflexivity. Qed.
Example ex_iso_1 : Date.toISOString 1756724400000 = js "2025-09-01T11:00:00.000Z".
Proof. vm_compute. reflexivity. Qed.
Example ex_iso_2 : Date.toISOString (-1) = js "1969-12-31T23:59:59.999Z".
Proof. vm_compute. reflexivity. Qed.
Example ex_iso_3 : Date.toISOString 951782400000 = js "2000-02-29T00:00:00.000Z".
Proof. vm_compute. reflexivity. Qed.
Example ex_iso_4 : Date.toISOString (-62198755200000) = js "-000001-01-01T00:00:00.000Z".
Proof. vm_compute. reflexivity. Qed.
Example ex_iso_5 : Date.toISOString 8640000000000000 = js "+275760-09-13T00:00:00.000Z".
Proof. vm_compute. reflexivity. Qed.
Example ex_iso_6 : Date.toISOString (-8640000000000000) = js "-271821-04-20T00:00:00.000Z".
Proof. vm_compute. reflexivity. Qed.
Example ex_iso_7 : Date.toISOString 1709251199999 = js "2024-02-29T23:59:59.999Z".
Proof. vm_compute. reflexivity. Qed.
Example ex_iso_8 : Date.toISOString 4107542400000 = js "2100-03-01T00:00:00.000Z".
Proof. vm_compute. reflexivity. Qed.
Example ex_parse_1 : Date.parse (js "2025-09-01T11:00:00Z") = Some 1756724400000%Z.
Proof. vm_compute. reflexivity. Qed.
Example ex_parse_2 : Date.parse (js "2025-09-01T10:00:00Z") = Some 1756720800000%Z.
Proof. vm_compute. reflexivity. Qed.
Example ex_parse_3 : Date.parse (js "2024-02-29T23:59:59.999Z") = Some 1709251199999%Z.
Proof. vm_compute. reflexivity. Qed.
Example ex_parse_4 : Date.parse (js "2025-02-29T23:59:59.999Z") = None.
Proof. vm_compute. reflexivity. Qed.
Example ex_parse_5 : Date.parse (js "2025-09-01") = Some 1756684800000%Z.
Proof. vm_compute. reflexivity. Qed.
Example ex_parse_6 : Date.parse (js "2025-09") = Some 1756684800000%Z.
Proof. vm_compute. reflexivity. Qed.
Example ex_parse_7 : Date.parse (js "2025") = Some 1735689600000%Z.
Proof. vm_compute. reflexivity. Qed.
Example ex_parse_8 : Date.parse (js "2025-09-01T11:00Z") = Some 1756724400000%Z.
Proof. vm_compute. reflexivity. Qed.
Example ex_parse_9 : Date.parse (js "2025-09-01T13:00:00+02:00") = Some 1756724400000%Z.
Proof. vm_compute. reflexivity. Qed.
Example ex_parse_10 : Date.parse (js "2025-09-01T05:30:00.250-05:30") = Some 1756724400250%Z.
Proof. vm_compute. reflexivity. Qed.
Example ex_parse_11 : Date.parse (js "2025-08-31T24:00:00Z") = Some 1756684800000%Z.
Proof. vm_compute. reflexivity. Qed.
Example ex_parse_12 : Date.parse (js "+275760-09-13T00:00:00.000Z") = Some 8640000000000000%Z.
Proof. vm_compute. reflexivity. Qed.
Example ex_parse_13 : Date.parse (js "+275760-09-13T00:00:00.001Z") = None.
Proof. vm_compute. reflexivity. Qed.
Example ex_parse_14 : Date.parse (js "2025-09-01T11:00:00") = None.
Proof. vm_compute. reflexivity. Qed.
Example ex_str36 : Number_toString 36 1756724400000 = js "mf10cm80".
Proof. vm_compute. reflexivity. Qed.
Example ex_trim : trim ([32; 9]%N ++ js "Buy milk" ++ [160; 10]%N) = js "Buy milk".
Proof. vm_compute. reflexivity. Qed.

(** ** [trim] *)

Lemma trimStart_split (s : jsstring) :
  ∃ ws : jsstring, s = ws ++ trimStart s ∧ Forall (λ c, isWhiteSpace c = true) ws.
Proof.
  induction s as [| c s (ws & Hs & Hws)]; [by exists [] |].
  cbn [trimStart]. destruct (isWhiteSpace c) eqn:Hc.
  - exists (c :: ws). split; [by rewrite Hs at 1 | by constructor].
  - by exists [].
Qed.

Lemma trimStart_head (s : jsstring) (c : N) :
  head (trimStart s) = Some c → isWhiteSpace c = false.
Proof.
  induction s as [| a s IH]; [done |]. cbn [trimStart].
  destruct (isWhiteSpace a) eqn:Ha; [done |]. cbn. by intros [= <-].
Qed.

Lemma trimStart_fixed (s : jsstring) :
  (∀ c, head s = Some c → isWhiteSpace c = false) → trimStart s = s.
Proof.
  destruct s as [| a s]; [done |]. intros H. cbn [trimStart].
  by rewrite (H a).
Qed.

Lemma trimEnd_split (s : jsstring) :
  ∃ ws : jsstring, s = trimEnd s ++ ws ∧ Forall (λ c, isWhiteSpace c = true) ws.
Proof.
  unfold trimEnd. destruct (trimStart_split (reverse s)) as (ws & Hs & Hws).
  exists (reverse ws). split.
  - rewrite <- reverse_app, <- Hs. by rewrite reverse_involutive.
  - by apply Forall_reverse.
Qed.

Lemma trimEnd_last (s : jsstring) (c : N) :
  last (trimEnd s) = Some c → isWhiteSpace c = false.
Proof.
  unfold trimEnd. rewrite last_reverse. apply trimStart_head.
Qed.

Lemma trimEnd_fixed (s : jsstring) :
  (∀ c, last s = Some c → isWhiteSpace c = false) → trimEnd s = s.
Proof.
  intros H. unfold trimEnd. rewrite trimStart_fixed; [apply reverse_involutive |].
  intros c Hc. apply H. by rewrite <- head_reverse.
Qed.

(** [trim] removes a run of white space at each end and nothing else, and
    what is left neither starts nor ends with white space. *)
Lemma trim_spec (s : jsstring) :
  ∃ pre post : jsstring,
    s = pre ++ trim s ++ post
    ∧ Forall (λ c, isWhiteSpace c = true) pre
    ∧ Forall (λ c, isWhiteSpace c = true) post
    ∧ (∀ c, head (trim s) = Some c → isWhiteSpace c = false)
    ∧ (∀ c, last (trim s) = Some c → isWhiteSpace c = false).
Proof.
  unfold trim.
  destruct (trimStart_split s) as (pre & Hpre & Hwpre).
  destruct (trimEnd_split (trimStart s)) as (post & Hpost & Hwpost).
  exists pre, post. split; [by rewrite <- Hpost |].
  split; [done |]. split; [done |]. split; [| apply trimEnd_last].
  intros c Hc. apply (trimStart_head s).
  rewrite Hpost. destruct (trimEnd (trimStart s)); [done | exact Hc].
Qed.

Lemma trim_fixed (s : jsstring) :
  (∀ c, head s = Some c → isWhiteSpace c = false) →
  (∀ c, last s = Some c → isWhiteSpace c = false) →
  trim s = s.
Proof.
  intros Hh Hl. unfold trim. rewrite trimStart_fixed by done. by apply trimEnd_fixed.
Qed.

Lemma trim_idempotent (s : jsstring) : trim (trim s) = trim s.
Proof.
  destruct (trim_spec s) as (_ & _ & _ & _ & _ & Hh & Hl). by apply trim_fixed.
Qed.

(** ** [toString(radix)]: the digits do not depend on the fuel *)

Lemma radixDigits_fuel (fuel extra : nat) (radix n : Z) (acc : jsstring) :
  (2 <= radix)%Z → (0 <= n)%Z → (Z.log2 n < Z.of_nat fuel)%Z →
  radixDigits (fuel + extra) radix n acc = radixDigits fuel radix n acc.
Proof.
  intros Hradix. revert n acc.
  induction fuel as [| fuel IH]; intros n acc Hn Hlog.
  - pose proof (Z.log2_nonneg n). lia.
  - cbn [Nat.add radixDigits].
    destruct (Z.eqb_spec (n / radix) 0) as [| Hq]; [done |].
    apply IH; [apply Z.div_pos; lia |].
    assert (2 <= n)%Z as Hn2.
    { destruct (Z.lt_ge_cases n radix) as [Hlt | Hge]; [| lia].
      rewrite Z.div_small in Hq by lia. done. }
    assert (n / radix <= n / 2)%Z as Hle by (apply Z.div_le_compat_l; lia).
    pose proof (Z.log2_le_mono _ _ Hle) as Hmono.
    replace (n / 2)%Z with (Z.shiftr n 1) in Hmono by (by rewrite Z.shiftr_div_pow2).
    rewrite Z.log2_shiftr in Hmono by lia.
    pose proof (Z.log2_le_mono 2 n ltac:(lia)) as Hone. change (Z.log2 2) with 1%Z in Hone.
    lia.
Qed.

Lemma Number_toString_fuel (radix n : Z) (extra : nat) :
  (2 <= radix)%Z → (0 <= n)%Z →
  radixDigits (S (Z.to_nat (Z.log2 n)) + extra) radix n [] = Number_toString radix n.
Proof.
  intros Hradix Hn. unfold Number_toString.
  replace (n <? 0)%Z with false by (symmetry; apply Z.ltb_ge; lia).
  apply radixDigits_fuel; [done | done |].
  pose proof (Z.log2_nonneg n). lia.
Qed.

(** ** Calendar arithmetic and the date-time format *)

Module DateFacts.
Import Date.
Local Open Scope Z_scope.

Lemma isLeapYear_cases (y : Z) :
  (isLeapYear y = true ∧ y mod 4 = 0 ∧ (y mod 100 ≠ 0 ∨ y mod 400 = 0))
  ∨ (isLeapYear y = false ∧ (y mod 4 ≠ 0 ∨ (y mod 100 = 0 ∧ y mod 400 ≠ 0))).
Proof.
  unfold isLeapYear.
  destruct (Z.eqb_spec (y mod 4) 0), (Z.eqb_spec (y mod 100) 0), (Z.eqb_spec (y mod 400) 0);
    cbn; intuition lia.
Qed.

(** A year later, the first of January is 365 or 366 days further. *)
Lemma DayFromYear_succ (y : Z) : DayFromYear (y + 1) = DayFromYear y + DaysInYear y.
Proof.
  unfold DaysInYear.
  destruct (isLeapYear_cases y) as [(-> & H4 & H100) | (-> & H)];
    unfold DayFromYear; Z.div_mod_to_equations; lia.
Qed.

Lemma DayFromYear_mono (y1 y2 : Z) : y1 <= y2 → DayFromYear y1 <= DayFromYear y2.
Proof. intros H. unfold DayFromYear. Z.div_mod_to_equations. lia. Qed.

(** [YearFromDay d] is the year whose days include [d] ... *)
Lemma YearFromDay_spec (d : Z) :
  DayFromYear (YearFromDay d) <= d < DayFromYear (YearFromDay d + 1).
Proof.
  unfold YearFromDay, DayFromYear. cbv zeta.
  Z.div_mod_to_equations. lia.
Qed.

(** ... and the only one: the largest [y] with [DayFromYear y <= d],
    which is how ECMAScript defines YearFromTime. *)
Lemma YearFromDay_unique (d y : Z) :
  DayFromYear y <= d < DayFromYear (y + 1) → YearFromDay d = y.
Proof.
  intros [Hlo Hhi]. pose proof (YearFromDay_spec d) as [Hlo' Hhi'].
  destruct (Z.lt_trichotomy (YearFromDay d) y) as [Hlt | [Heq | Hgt]]; [| done |].
  - pose proof (DayFromYear_mono (YearFromDay d + 1) y). lia.
  - pose proof (DayFromYear_mono (y + 1) (YearFromDay d)). lia.
Qed.

Lemma DayWithinYear_range (t : Z) :
  0 <= DayWithinYear t < DaysInYear (YearFromTime t).
Proof.
  unfold DayWithinYear, YearFromTime.
  pose proof (YearFromDay_spec (Day t)) as H.
  rewrite DayFromYear_succ in H. lia.
Qed.

Ltac table_lookup :=
  repeat match goal with
         | |- context [daysBeforeMonth ?b ?m] =>
             let v := eval vm_compute in (daysBeforeMonth b m) in
             change (daysBeforeMonth b m) with v
         end.

(** The month of a day of the year is the one whose days include it. *)
Lemma monthOfDay_spec (leap : bool) (n : Z) :
  0 <= n < (if leap then 366 else 365) →
  0 <= monthOfDay leap n <= 11
  ∧ daysBeforeMonth leap (monthOfDay leap n) <= n
  ∧ n < daysBeforeMonth leap (monthOfDay leap n + 1).
Proof.
  intros Hn. remember (monthOfDay leap n) as m eqn:Hm.
  unfold monthOfDay in Hm. cbv zeta in Hm.
  destruct leap;
    repeat match type of Hm with
           | context [daysBeforeMonth ?b ?k] =>
               let v := eval vm_compute in (daysBeforeMonth b k) in
               change (daysBeforeMonth b k) with v in Hm
           end;
    repeat match type of Hm with
           | context [if ?a <? ?b then _ else _] => destruct (Z.ltb_spec a b)
           end;
    subst m; table_lookup; lia.
Qed.

(** Lengths of the months, read off the table. *)
Lemma daysBeforeMonth_step (leap : bool) (m : Z) :
  0 <= m <= 11 → 28 <= daysBeforeMonth leap (m + 1) - daysBeforeMonth leap m <= 31.
Proof.
  intros Hm.
  assert (m = 0 ∨ m = 1 ∨ m = 2 ∨ m = 3 ∨ m = 4 ∨ m = 5 ∨ m = 6 ∨ m = 7 ∨ m = 8
          ∨ m = 9 ∨ m = 10 ∨ m = 11) as Hcases by lia.
  destruct leap; repeat (destruct Hcases as [-> | Hcases]; [table_lookup; lia |]);
    subst m; table_lookup; lia.
Qed.

(** The parts [toISOString] prints make the time value up again. *)
Lemma MakeTime_parts (t : Z) :
  MakeTime (HourFromTime t) (MinFromTime t) (SecFromTime t) (msFromTime t) = TimeWithinDay t.
Proof.
  unfold MakeTime, HourFromTime, MinFromTime, SecFromTime, msFromTime, TimeWithinDay,
    msPerHour, msPerMinute, msPerSecond, msPerDay.
  Z.div_mod_to_equations. lia.
Qed.

Lemma MakeDay_parts (t : Z) :
  MakeDay (YearFromTime t) (MonthFromTime t) (DateFromTime t) = Day t.
Proof. unfold MakeDay, DateFromTime, DayWithinYear. lia. Qed.

Lemma MakeDate_parts (t : Z) : MakeDate (Day t) (TimeWithinDay t) = t.
Proof.
  unfold MakeDate, Day, TimeWithinDay, msPerDay. Z.div_mod_to_equations. lia.
Qed.

(** *** Digits *)

Lemma digitValue_digit (d : Z) :
  0 <= d <= 9 → digitValue (Z.to_N (48 + d)) = Some d.
Proof.
  intros Hd. unfold digitValue.
  replace ((48 <=? Z.to_N (48 + d))%N && (Z.to_N (48 + d) <=? 57)%N) with true.
  - f_equal. lia.
  - symmetry. apply andb_true_iff. split; apply N.leb_le; lia.
Qed.

(** Reading [width] digits back from what [padDigits] wrote. *)
Lemma takeDigits_padDigits (width extra : nat) (n acc : Z) (s : jsstring) :
  0 <= n < 10 ^ Z.of_nat width →
  takeDigits (width + extra) acc (padDigits width n ++ s)
  = takeDigits extra (acc * 10 ^ Z.of_nat width + n) s.
Proof.
  revert extra n s. induction width as [| width IH]; intros extra n s Hn.
  - cbn [padDigits Nat.add app]. f_equal. cbn in Hn. lia.
  - cbn [padDigits]. rewrite <- app_assoc. cbn [app].
    replace (S width + extra)%nat with (width + S extra)%nat by lia.
    rewrite Nat2Z.inj_succ, Z.pow_succ_r in Hn by lia.
    rewrite IH by (Z.div_mod_to_equations; lia).
    cbn [takeDigits]. rewrite digitValue_digit by (Z.div_mod_to_equations; lia).
    cbn [mbind option_bind]. f_equal.
    rewrite Nat2Z.inj_succ, Z.pow_succ_r by lia.
    Z.div_mod_to_equations. lia.
Qed.

Lemma takeDigits_pad (width : nat) (n : Z) (s : jsstring) :
  0 <= n < 10 ^ Z.of_nat width →
  takeDigits width 0 (padDigits width n ++ s) = Some (n, s).
Proof.
  intros Hn. pose proof (takeDigits_padDigits width 0 n 0 s Hn) as H.
  rewrite Nat.add_0_r in H. rewrite H. reflexivity.
Qed.

Lemma expect_head (c : N) (s : jsstring) : expect c (c :: s) = Some s.
Proof. unfold expect. by rewrite bool_decide_eq_true_2. Qed.

Lemma padDigits_head (width : nat) (n : Z) (s : jsstring) :
  ∃ (d : Z) (rest : jsstring),
    padDigits (S width) n ++ s = Z.to_N (48 + d) :: rest ∧ 0 <= d <= 9.
Proof.
  revert n s. induction width as [| width IH]; intros n s.
  - exists (n mod 10), s. split; [reflexivity | Z.div_mod_to_equations; lia].
  - change (padDigits (S (S width)) n) with (padDigits (S width) (n / 10) ++ [Z.to_N (48 + n mod 10)]).
    rewrite <- app_assoc. apply IH.
Qed.

Lemma takeYear_yearString (y : Z) (s : jsstring) :
  -999999 <= y <= 999999 → takeYear (yearString y ++ s) = Some (y, s).
Proof.
  intros Hy. unfold yearString.
  destruct (Z.leb_spec 0 y) as [H0 | H0]; [destruct (Z.leb_spec y 9999) as [H9 | H9] |];
    cbn [andb].
  - destruct (padDigits_head 3 y s) as (d & rest & Heq & Hd).
    pose proof (takeDigits_pad 4 y s ltac:(lia)) as Htake.
    rewrite Heq in *. unfold takeYear.
    rewrite !bool_decide_eq_false_2; [exact Htake | |]; unfold ch; cbn; lia.
  - replace (y <? 0) with false by (symmetry; apply Z.ltb_ge; lia).
    cbn [app]. unfold takeYear. rewrite bool_decide_eq_true_2 by done.
    apply takeDigits_pad. lia.
  - replace (y <? 0) with true by (symmetry; apply Z.ltb_lt; lia).
    cbn [app]. unfold takeYear.
    rewrite bool_decide_eq_false_2 by (unfold ch; cbn; lia).
    rewrite bool_decide_eq_true_2 by done.
    rewrite takeDigits_pad by lia. cbn [mbind option_bind].
    replace (- y =? 0) with false by (symmetry; apply Z.eqb_neq; lia).
    f_equal. f_equal. lia.
Qed.

Lemma takeMillis_fraction (ms : Z) (s : jsstring) :
  0 <= ms < 1000 → takeMillis (ch "." :: padDigits 3 ms ++ s) = Some (ms, s).
Proof.
  intros Hms. unfold takeMillis. rewrite bool_decide_eq_true_2 by done.
  apply takeDigits_pad. lia.
Qed.

(** The years of the time values a Date can hold. *)
Lemma YearFromTime_range (t : Z) :
  -8640000000000000 <= t <= 8640000000000000 →
  -271821 <= YearFromTime t <= 275760.
Proof.
  intros Ht. unfold YearFromTime, YearFromDay, Day, msPerDay. cbv zeta.
  Z.div_mod_to_equations. lia.
Qed.

(** Reading back what [toISOString] wrote gives the time value itself,
    for every time value a Date can hold. *)
Theorem parse_toISOString (t : Z) :
  -8640000000000000 <= t <= 8640000000000000 →
  parse (toISOString t) = Some t.
Proof.
  intros Ht. pose proof (YearFromTime_range t Ht) as Hy.
  pose proof (DayWithinYear_range t) as Hd. unfold DaysInYear in Hd.
  pose proof (monthOfDay_spec (isLeapYear (YearFromTime t)) (DayWithinYear t) Hd)
    as (Hm & Hlo & Hhi).
  fold (MonthFromTime t) in Hm, Hlo, Hhi.
  pose proof (daysBeforeMonth_step (isLeapYear (YearFromTime t)) (MonthFromTime t) Hm) as Hlen.
  assert (1 <= DateFromTime t
          <= daysBeforeMonth (isLeapYear (YearFromTime t)) (MonthFromTime t + 1)
             - daysBeforeMonth (isLeapYear (YearFromTime t)) (MonthFromTime t)) as Hdate
    by (unfold DateFromTime; lia).
  assert (0 <= HourFromTime t <= 23) as Hh by (unfold HourFromTime; Z.div_mod_to_equations; lia).
  assert (0 <= MinFromTime t <= 59) as Hmin by (unfold MinFromTime; Z.div_mod_to_equations; lia).
  assert (0 <= SecFromTime t <= 59) as Hs by (unfold SecFromTime; Z.div_mod_to_equations; lia).
  assert (0 <= msFromTime t < 1000) as Hms
    by (unfold msFromTime, msPerSecond; Z.div_mod_to_equations; lia).
  unfold parse, takeDate, takeTime, toISOString.
  rewrite takeYear_yearString by lia. cbn [mbind option_bind].
  rewrite expect_head.
  rewrite takeDigits_pad by (change (10 ^ Z.of_nat 2) with 100; lia). cbn [mbind option_bind].
  rewrite expect_head.
  rewrite takeDigits_pad by (change (10 ^ Z.of_nat 2) with 100; lia). cbn [mbind option_bind].
  rewrite bool_decide_eq_false_2 by done.
  rewrite expect_head. cbn [mbind option_bind].
  rewrite takeDigits_pad by (change (10 ^ Z.of_nat 2) with 100; lia). cbn [mbind option_bind].
  rewrite expect_head. cbn [mbind option_bind].
  rewrite takeDigits_pad by (change (10 ^ Z.of_nat 2) with 100; lia). cbn [mbind option_bind].
  rewrite expect_head.
  rewrite takeDigits_pad by (change (10 ^ Z.of_nat 2) with 100; lia). cbn [mbind option_bind].
  rewrite takeMillis_fraction by lia. cbn [mbind option_bind].
  change (takeOffset [ch "Z"]) with (Some 0). cbn [mbind option_bind].
  replace (MonthFromTime t + 1 - 1) with (MonthFromTime t) by lia.
  repeat match goal with
         | |- context [?a <=? ?b] =>
             replace (a <=? b) with true by (symmetry; apply Z.leb_le; lia)
         end.
  cbn [andb orb mbind option_bind].
  rewrite MakeDay_parts, MakeTime_parts, MakeDate_parts. unfold TimeClip.
  replace (t - 0 * msPerMinute) with t by lia.
  repeat match goal with
         | |- context [?a <=? ?b] =>
             replace (a <=? b) with true by (symmetry; apply Z.leb_le; lia)
         end.
  reflexivity.
Qed.
End DateFacts.

(** ** Timestamps as instants *)

Lemma toISOString_inj (t1 t2 : Z) :
  timeValue t1 → timeValue t2 →
  Date.toISOString t1 = Date.toISOString t2 → t1 = t2.
Proof.
  intros H1 H2 Heq.
  pose proof (DateFacts.parse_toISOString t1 H1) as P1.
  pose proof (DateFacts.parse_toISOString t2 H2) as P2.
  rewrite Heq in P1. congruence.
Qed.

Lemma instantLtb_toISOString (stamp : jsstring) (t0 now : Z) :
  Date.parse stamp = Some t0 → timeValue now →
  instantLtb stamp (Date.toISOString now) = (t0 <? now)%Z.
Proof.
  intros Hstamp Hnow. unfold instantLtb.
  by rewrite Hstamp, (DateFacts.parse_toISOString now Hnow).
Qed.

Lemma instantLeb_toISOString (t1 t2 : Z) :
  timeValue t1 → timeValue t2 →
  instantLeb (Date.toISOString t1) (Date.toISOString t2) = (t1 <=? t2)%Z.
Proof.
  intros H1 H2. unfold instantLeb.
  by rewrite (DateFacts.parse_toISOString t1 H1), (DateFacts.parse_toISOString t2 H2).
Qed.

(** ** Arrays: [findIndex], indexing, [splice] *)

Section find_index.
Context {A : Type} (p : A -> bool).

Lemma findIndexFrom_spec (l : list A) (i : Z) :
  (findIndexFrom p l i = (-1)%Z ∧ Forall (λ x, p x = false) l)
  ∨ (∃ (k : nat) (x : A),
        findIndexFrom p l i = (i + Z.of_nat k)%Z
        ∧ l !! k = Some x ∧ p x = true
        ∧ Forall (λ y, p y = false) (take k l)).
Proof.
  revert i. induction l as [|a l IH]; intros i; simpl.
  - left. split; [done | constructor].
  - destruct (p a) eqn:Ha.
    + right. exists 0%nat, a. repeat split; try done. lia.
    + destruct (IH (i + 1)%Z) as [[-> Hall] | (k & x & -> & Hk & Hx & Hall)].
      * left. split; [done | by constructor].
      * right. exists (S k), x. repeat split; try done; [lia | by constructor].
Qed.

Lemma findIndex_spec (l : list A) :
  (findIndex p l = (-1)%Z ∧ Forall (λ x, p x = false) l)
  ∨ (∃ (k : nat) (x : A),
        findIndex p l = Z.of_nat k
        ∧ l !! k = Some x ∧ p x = true
        ∧ Forall (λ y, p y = false) (take k l)).
Proof.
  unfold findIndex.
  destruct (findIndexFrom_spec l 0) as [H | (k & x & H & ?)]; [by left |].
  right. exists k, x. by rewrite H.
Qed.

(** When no element satisfies [p], [findIndex] answers -1. *)
Lemma findIndex_none (l : list A) :
  Forall (λ x, p x = false) l → findIndex p l = (-1)%Z.
Proof.
  intros Hall. destruct (findIndex_spec l) as [[? _] | (k & x & _ & Hk & Hx & _)]; [done |].
  rewrite Forall_lookup in Hall. specialize (Hall _ _ Hk). simpl in Hall. congruence.
Qed.

(** When some element satisfies [p], [findIndex] answers its first index. *)
Lemma findIndex_some (l : list A) (x : A) :
  x ∈ l → p x = true →
  ∃ (k : nat) (y : A), findIndex p l = Z.of_nat k ∧ l !! k = Some y ∧ p y = true
                       ∧ Forall (λ z, p z = false) (take k l).
Proof.
  intros Hin Hx. destruct (findIndex_spec l) as [[_ Hall] | H]; [| done].
  rewrite Forall_forall in Hall. specialize (Hall _ Hin). simpl in Hall. congruence.
Qed.

(** Whatever [findIndex] answers besides -1 is an index of the array. *)
Lemma findIndex_index (l : list A) :
  findIndex p l ≠ (-1)%Z → is_Some (index l (findIndex p l)).
Proof.
  intros Hne. destruct (findIndex_spec l) as [[? _] | (k & x & Hk & Hx & _)]; [done |].
  rewrite Hk. unfold index.
  replace (Z.of_nat k <? 0)%Z with false by (symmetry; apply Z.ltb_ge; lia).
  rewrite Nat2Z.id. eauto.
Qed.

End find_index.

Lemma index_of_nat {A} (l : list A) (k : nat) : index l (Z.of_nat k) = l !! k.
Proof.
  unfold index. replace (Z.of_nat k <? 0)%Z with false by (symmetry; apply Z.ltb_ge; lia).
  by rewrite Nat2Z.id.
Qed.

(** Removing one element at an index of the array. *)
Lemma splice_one {A} (l : list A) (k : nat) :
  (k < length l)%nat → splice (Z.of_nat k) 1 l = take k l ++ drop (S k) l.
Proof.
  intros Hk. unfold splice.
  replace (Z.of_nat k <? 0)%Z with false by (symmetry; apply Z.ltb_ge; lia).
  rewrite Z.min_l by lia. rewrite Z.max_l by lia. rewrite Z.min_l by lia.
  rewrite Nat2Z.id. f_equal. f_equal. lia.
Qed.

Lemma strictEq_true (a b : jsstring) : strictEq a b = true ↔ a = b.
Proof. unfold strictEq. apply bool_decide_eq_true. Qed.

Lemma strictEq_false (a b : jsstring) : strictEq a b = false ↔ a ≠ b.
Proof. unfold strictEq. apply bool_decide_eq_false. Qed.

(** What an array holds after a write at an index, and after a removal. *)
Lemma elem_of_insert_inv {A} (l : list A) (k : nat) (x y : A) :
  y ∈ <[k := x]> l → y = x ∨ y ∈ l.
Proof.
  intros Hy. apply list_elem_of_lookup in Hy as [j Hj].
  destruct (decide (j = k)) as [-> | Hne].
  - destruct (decide (k < length l)%nat) as [Hlt | Hge].
    + rewrite list_lookup_insert_eq in Hj by done. left. congruence.
    + rewrite list_insert_ge in Hj by lia. right. apply list_elem_of_lookup. eauto.
  - rewrite list_lookup_insert_ne in Hj by done. right. apply list_elem_of_lookup. eauto.
Qed.

Lemma not_elem_of_delete_NoDup {A} (l : list A) (k : nat) (x : A) :
  NoDup l → l !! k = Some x → x ∉ delete k l.
Proof.
  intros Hnodup Hk Hx. apply list_elem_of_lookup in Hx as [j Hj].
  destruct (decide (j < k)%nat) as [Hlt | Hge].
  - rewrite list_lookup_delete_lt in Hj by done.
    pose proof (NoDup_lookup _ _ _ _ Hnodup Hj Hk). lia.
  - rewrite list_lookup_delete_ge in Hj by lia.
    pose proof (NoDup_lookup _ _ _ _ Hnodup Hj Hk). lia.
Qed.

(** ** What each operation computes *)

Lemma shouldFail_fetch : shouldFail (Some (js "fetch")) = mret false.
Proof. reflexivity. Qed.

Lemma shouldFail_other :
  shouldFail None = (r ← Math_random; mret (Qltb (value r) threshold)).
Proof. reflexivity. Qed.

Ltac run_body :=
  rewrite ?shouldFail_fetch, ?shouldFail_other;
  cbv [try_catch mbind M_bind mret M_ret when throw generateId
       Math_random Date_now getTodos setTodos delay injected nextDraw nextClock
       consumed failure];
  cbn [bool_decide decide_rel fst snd todos clock clockReads random randomReads
       Nat.add value toString36].

Lemma fetchTodos_eq (w : World) : fetchTodos w = (fetched w, w).
Proof. unfold fetchTodos. run_body. reflexivity. Qed.

Lemma createTodo_eq (todoData : CreateTodoRequest.t) (w : World) :
  createTodo todoData w =
    if injected w
    then (failure (Error (js "Failed to create todo. Please try again.")), consumed 1 0 w)
    else ({| success := true;
             data := Some (newTodo todoData w);
             error := None;
             message := Some (js "Todo created successfully") |},
          mkWorld (todos w ++ [newTodo todoData w]) (clock w) (3 + clockReads w)
                  (random w) (2 + randomReads w)).
Proof.
  unfold createTodo. run_body.
  destruct (Qltb _ threshold); reflexivity.
Qed.

Lemma updateTodo_eq (todoData : UpdateTodoRequest.t) (w : World) :
  updateTodo todoData w =
    if injected w
    then (failure (Error (js "Failed to update todo. Please try again.")), consumed 1 0 w)
    else
      let todoIndex := todoIndexOf (UpdateTodoRequest.id todoData) w in
      if (todoIndex =? -1)%Z
      then (failure (Error (js "Todo not found")), consumed 1 0 w)
      else
        match index (todos w) todoIndex with
        | Some old =>
            let updatedTodo := merge old todoData (Date.toISOString (nextClock w)) in
            ({| success := true;
                data := Some updatedTodo;
                error := None;
                message := Some (js "Todo updated successfully") |},
             mkWorld (<[Z.to_nat todoIndex := updatedTodo]> (todos w)) (clock w)
                     (1 + clockReads w) (random w) (1 + randomReads w))
        | None => (failure NonError, consumed 1 0 w)
        end.
Proof.
  unfold updateTodo, todoIndexOf. run_body.
  destruct (Qltb _ threshold); [reflexivity |].
  cbn [todos].
  destruct (_ =? -1)%Z; [reflexivity |].
  destruct (index _ _); reflexivity.
Qed.

Lemma deleteTodo_eq (i : jsstring) (w : World) :
  deleteTodo i w =
    if injected w
    then (deleteFailure (Error (js "Failed to delete todo. Please try again.")), consumed 1 0 w)
    else
      let todoIndex := todoIndexOf i w in
      if (todoIndex =? -1)%Z
      then (deleteFailure (Error (js "Todo not found")), consumed 1 0 w)
      else
        ({| success := true;
            data := Some null;
            error := None;
            message := Some (js "Todo deleted successfully") |},
         mkWorld (splice todoIndex 1 (todos w)) (clock w) (clockReads w)
                 (random w) (1 + randomReads w)).
Proof.
  unfold deleteTodo, todoIndexOf, deleteFailure. run_body.
  destruct (Qltb _ threshold); [reflexivity |].
  cbn [todos].
  destruct (_ =? -1)%Z; reflexivity.
Qed.

(** The index [findIndex] answers for an id, in terms of the store. *)
Lemma todoIndexOf_absent (i : jsstring) (w : World) :
  i ∉ ids w → todoIndexOf i w = (-1)%Z.
Proof.
  intros Hnot. apply findIndex_none. apply Forall_forall. intros r Hr.
  apply strictEq_false. intros Heq. apply Hnot. unfold ids.
  rewrite <- Heq. apply list_elem_of_fmap. eauto.
Qed.

Lemma todoIndexOf_present (i : jsstring) (w : World) :
  i ∈ ids w →
  ∃ (k : nat) (r : Todo.t),
    todoIndexOf i w = Z.of_nat k ∧ todos w !! k = Some r ∧ Todo.id r = i
    ∧ (i ∉ (Todo.id <$> take k (todos w))).
Proof.
  intros Hin. unfold ids in Hin. apply list_elem_of_fmap in Hin as (r & -> & Hr).
  destruct (findIndex_some (fun todo => strictEq (Todo.id todo) (Todo.id r)) (todos w) r Hr)
    as (k & y & Hk & Hy & Hp & Hbefore).
  { by apply strictEq_true. }
  exists k, y. split; [exact Hk |]. split; [exact Hy |].
  split; [by apply strictEq_true |].
  intros Hmem. apply list_elem_of_fmap in Hmem as (z & Hz & Hzin).
  rewrite Forall_forall in Hbefore. specialize (Hbefore _ Hzin). simpl in Hbefore.
  apply strictEq_false in Hbefore. congruence.
Qed.

Lemma todoIndexOf_cases (i : jsstring) (w : World) :
  (todoIndexOf i w = (-1)%Z ∧ i ∉ ids w)
  ∨ (∃ (k : nat) (r : Todo.t),
        todoIndexOf i w = Z.of_nat k ∧ todos w !! k = Some r ∧ Todo.id r = i
        ∧ (i ∉ (Todo.id <$> take k (todos w)))).
Proof.
  destruct (decide (i ∈ ids w)) as [Hin | Hnot].
  - right. by apply todoIndexOf_present.
  - left. split; [by apply todoIndexOf_absent | done].
Qed.

(** The world a call leaves behind. *)
Lemma invoke_world (c : Call) (w : World) :
  (invoke c w).2 =
    match c with
    | Fetch => (fetchTodos w).2
    | Create todoData => (createTodo todoData w).2
    | Update todoData => (updateTodo todoData w).2
    | Delete i => (deleteTodo i w).2
    end.
Proof. by destruct c. Qed.

(** ** When the operations succeed *)

Lemma createTodo_succeeds (todoData : CreateTodoRequest.t) (w : World) :
  success (createTodo todoData w).1 = negb (injected w).
Proof. rewrite createTodo_eq. by destruct (injected w). Qed.

Lemma updateTodo_succeeds (todoData : UpdateTodoRequest.t) (w : World) :
  success (updateTodo todoData w).1
  = negb (injected w) && bool_decide (UpdateTodoRequest.id todoData ∈ ids w).
Proof.
  rewrite updateTodo_eq. destruct (injected w); [done |]. cbv zeta.
  destruct (todoIndexOf_cases (UpdateTodoRequest.id todoData) w)
    as [[-> Hnot] | (k & old & Hidx & Hk & Hid & _)].
  - by rewrite bool_decide_eq_false_2.
  - rewrite Hidx.
    replace (Z.of_nat k =? -1)%Z with false by (symmetry; apply Z.eqb_neq; lia).
    rewrite index_of_nat, Hk. rewrite bool_decide_eq_true_2; [done |].
    unfold ids. rewrite <- Hid. apply list_elem_of_fmap. exists old.
    split; [done |]. apply list_elem_of_lookup. eauto.
Qed.

Lemma deleteTodo_succeeds (i : jsstring) (w : World) :
  success (deleteTodo i w).1 = negb (injected w) && bool_decide (i ∈ ids w).
Proof.
  rewrite deleteTodo_eq. destruct (injected w); [done |]. cbv zeta.
  destruct (todoIndexOf_cases i w) as [[-> Hnot] | (k & r & Hidx & Hk & Hid & _)].
  - by rewrite bool_decide_eq_false_2.
  - rewrite Hidx.
    replace (Z.of_nat k =? -1)%Z with false by (symmetry; apply Z.eqb_neq; lia).
    rewrite bool_decide_eq_true_2; [done |].
    unfold ids. rewrite <- Hid. apply list_elem_of_fmap. exists r.
    split; [done |]. apply list_elem_of_lookup. eauto.
Qed.

(** ** Updates *)

(** A call of [updateTodo] that reports success met no injected failure
    and found a record: the first one carrying the payload's id, which it
    replaced by the merged record. *)
Lemma updateTodo_found (todoData : UpdateTodoRequest.t) (w : World) :
  success (updateTodo todoData w).1 = true →
  injected w = false
  ∧ ∃ (k : nat) (old : Todo.t),
      todos w !! k = Some old
      ∧ Todo.id old = UpdateTodoRequest.id todoData
      ∧ (UpdateTodoRequest.id todoData ∉ (Todo.id <$> take k (todos w)))
      ∧ data (updateTodo todoData w).1
        = Some (merge old todoData (Date.toISOString (nextClock w)))
      ∧ todos (updateTodo todoData w).2
        = <[k := merge old todoData (Date.toISOString (nextClock w))]> (todos w).
Proof.
  rewrite updateTodo_eq. destruct (injected w); [done |]. cbv zeta.
  destruct (todoIndexOf_cases (UpdateTodoRequest.id todoData) w)
    as [[-> _] | (k & old & -> & Hk & Hid & Hfirst)]; [done |].
  replace (Z.of_nat k =? -1)%Z with false by (symmetry; apply Z.eqb_neq; lia).
  rewrite index_of_nat, Hk, Nat2Z.id. intros _.
  split; [done |]. exists k, old. by repeat split.
Qed.

(** An update that reports failure has not touched the collection. *)
Lemma updateTodo_failure_keeps_todos (todoData : UpdateTodoRequest.t) (w : World) :
  success (updateTodo todoData w).1 = false → todos (updateTodo todoData w).2 = todos w.
Proof.
  rewrite updateTodo_eq. destruct (injected w); [done |].
  cbv zeta. destruct (_ =? -1)%Z; [done |].
  by destruct (index _ _).
Qed.

(** The only errors [updateTodo] reports are the injected failure and
    "Todo not found": past the guard, [todos[todoIndex]] is a record. *)
Lemma updateTodo_failure (todoData : UpdateTodoRequest.t) (w : World) :
  success (updateTodo todoData w).1 = false →
  error (updateTodo todoData w).1
  = Some (if injected w then js "Failed to update todo. Please try again."
          else js "Todo not found").
Proof.
  rewrite updateTodo_eq. destruct (injected w); [done |]. cbv zeta.
  destruct (todoIndexOf_cases (UpdateTodoRequest.id todoData) w)
    as [[-> _] | (k & old & -> & Hk & _)]; [done |].
  replace (Z.of_nat k =? -1)%Z with false by (symmetry; apply Z.eqb_neq; lia).
  by rewrite index_of_nat, Hk.
Qed.

Lemma merge_twice (old : Todo.t) (todoData : UpdateTodoRequest.t) (s1 s2 : jsstring) :
  exceptUpdatedAt (merge (merge old todoData s1) todoData s2)
  = exceptUpdatedAt (merge old todoData s1).
Proof.
  unfold exceptUpdatedAt, merge. cbn.
  by destruct (UpdateTodoRequest.title todoData),
    (UpdateTodoRequest.description todoData), (UpdateTodoRequest.completed todoData).
Qed.

(** ** The stamps of the records a call writes *)

(** Every record a call writes into the store (appends or puts in the
    place of another) has [updatedAt] ≥ [createdAt], when the clock is
    sane and no record of the store was created in its future. *)
Lemma written_records_ordered (c : Call) (w : World) :
  saneClock w → createdByNow w →
  ∀ r : Todo.t, r ∈ todos (invoke c w).2 → r ∈ todos w ∨ stampsOrdered r = true.
Proof.
  intros [Hvalid Hmono] Hcreated r. rewrite invoke_world.
  destruct c as [| todoData | todoData | i].
  - rewrite fetchTodos_eq. by left.
  - rewrite createTodo_eq. destruct (injected w); [by left |]. cbn [snd todos].
    intros [Hr | Hr%list_elem_of_singleton]%elem_of_app; [by left |]. right. subst r.
    unfold stampsOrdered. cbn [newTodo Todo.createdAt Todo.updatedAt].
    rewrite instantLeb_toISOString by done. apply Z.leb_le, Hmono. lia.
  - destruct (success (updateTodo todoData w).1) eqn:Hok.
    + destruct (updateTodo_found _ _ Hok) as (_ & k & old & Hk & _ & _ & _ & ->).
      intros [-> | Hr]%elem_of_insert_inv; [right | by left].
      destruct (Hcreated old) as (t & Ht & Hle); [apply list_elem_of_lookup; eauto |].
      unfold stampsOrdered, instantLeb. cbn [merge Todo.createdAt Todo.updatedAt].
      rewrite Ht, DateFacts.parse_toISOString by apply Hvalid.
      by apply Z.leb_le.
    + rewrite (updateTodo_failure_keeps_todos _ _ Hok). by left.
  - rewrite deleteTodo_eq. destruct (injected w); [by left |]. cbv zeta.
    destruct (_ =? -1)%Z; [by left |]. cbn [snd todos]. unfold splice.
    intros [Hr | Hr]%elem_of_app; left;
      [eapply elem_of_sublist, sublist_take | eapply elem_of_sublist, sublist_drop]; done.
Qed.

(** ** The scenario of the specification *)

(** Three seeded records; "Buy milk" is created and appended, not
    completed; it is then completed under the same id with a later
    [updatedAt]; deleting it brings the collection back to the seed. *)
Example scenario :
  let w0 := initialWorld tickingClock calm in
  let created := createTodo buyMilk w0 in
  ∃ r : Todo.t,
    data created.1 = Some r
    ∧ todos created.2 = seed ++ [r]
    ∧ Todo.completed r = false
    ∧ let updated := updateTodo (UpdateTodoRequest.mk (Todo.id r) None None (Some true))
                       created.2 in
      ∃ r' : Todo.t,
        data updated.1 = Some r'
        ∧ Todo.id r' = Todo.id r
        ∧ Todo.completed r' = true
        ∧ instantLtb (Todo.updatedAt r) (Todo.updatedAt r') = true
        ∧ let deleted := deleteTodo (Todo.id r) updated.2 in
          success deleted.1 = true ∧ todos deleted.2 = seed.
Proof.
  cbv zeta. eexists. split; [vm_compute; reflexivity |].
  split; [vm_compute; reflexivity |]. split; [reflexivity |].
  eexists. split; [vm_compute; reflexivity |].
  repeat split; vm_compute; reflexivity.
Qed.

(** ** Numbers in base 36 *)

Local Open Scope Z_scope.

Lemma digitOf_digitChar (d : Z) : 0 <= d < 36 → digitOf (digitChar d) = d.
Proof.
  intros Hd. unfold digitOf, digitChar.
  destruct (Z.ltb_spec d 10).
  - replace (Z.to_N (48 + d) <? 58)%N with true by (symmetry; apply N.ltb_lt; lia). lia.
  - replace (Z.to_N (87 + d) <? 58)%N with false by (symmetry; apply N.ltb_ge; lia). lia.
Qed.

Lemma radixDigits_app (fuel : nat) (radix n : Z) (acc : jsstring) :
  radixDigits fuel radix n acc = radixDigits fuel radix n [] ++ acc.
Proof.
  revert n acc. induction fuel as [| fuel IH]; intros n acc; [done |].
  cbn [radixDigits]. destruct (n / radix =? 0); [done |].
  rewrite IH, (IH _ [_]), <- app_assoc. done.
Qed.

Lemma fromDigits_snoc (radix : Z) (s : jsstring) (c : N) :
  fromDigits radix (s ++ [c]) = fromDigits radix s * radix + digitOf c.
Proof. unfold fromDigits. by rewrite fold_left_app. Qed.

(** Reading the digits of a number back gives the number. *)
Lemma fromDigits_radixDigits (fuel : nat) (radix n : Z) :
  2 <= radix <= 36 → 0 <= n → Z.log2 n < Z.of_nat fuel →
  fromDigits radix (radixDigits fuel radix n []) = n.
Proof.
  intros Hradix. revert n. induction fuel as [| fuel IH]; intros n Hn Hlog.
  - pose proof (Z.log2_nonneg n). lia.
  - cbn [radixDigits].
    assert (0 <= n mod radix < 36) as Hd by (Z.div_mod_to_equations; lia).
    destruct (Z.eqb_spec (n / radix) 0) as [Hq | Hq].
    + unfold fromDigits. cbn. rewrite digitOf_digitChar by done.
      Z.div_mod_to_equations. lia.
    + rewrite radixDigits_app, fromDigits_snoc, digitOf_digitChar by done.
      rewrite IH.
      * Z.div_mod_to_equations. lia.
      * apply Z.div_pos; lia.
      * assert (2 <= n) as Hn2.
        { destruct (Z.lt_ge_cases n radix) as [Hlt | Hge]; [| lia].
          rewrite Z.div_small in Hq by lia. done. }
        assert (n / radix <= n / 2) as Hle by (apply Z.div_le_compat_l; lia).
        pose proof (Z.log2_le_mono _ _ Hle) as Hmono.
        replace (n / 2) with (Z.shiftr n 1) in Hmono by (by rewrite Z.shiftr_div_pow2).
        rewrite Z.log2_shiftr in Hmono by lia.
        pose proof (Z.log2_le_mono 2 n ltac:(lia)) as Hone.
        change (Z.log2 2) with 1 in Hone. lia.
Qed.

Lemma fromDigits_Number_toString (radix n : Z) :
  2 <= radix <= 36 → 0 <= n → fromDigits radix (Number_toString radix n) = n.
Proof.
  intros Hradix Hn. unfold Number_toString.
  replace (n <? 0) with false by (symmetry; apply Z.ltb_ge; lia).
  apply fromDigits_radixDigits; [done | done |].
  pose proof (Z.log2_nonneg n). lia.
Qed.

Lemma length_radixDigits (k fuel : nat) (radix n : Z) :
  2 <= radix → radix ^ Z.of_nat k <= n < radix ^ Z.of_nat (S k) →
  Z.log2 n < Z.of_nat fuel →
  length (radixDigits fuel radix n []) = S k.
Proof.
  intros Hradix. revert fuel n. induction k as [| k IH]; intros fuel n Hn Hlog.
  - destruct fuel as [| fuel]; [pose proof (Z.log2_nonneg n); lia |].
    cbn [radixDigits]. change (radix ^ Z.of_nat 0) with 1 in Hn.
    change (Z.of_nat 1) with 1 in Hn. rewrite Z.pow_1_r in Hn.
    rewrite Z.div_small by lia. done.
  - destruct fuel as [| fuel]; [pose proof (Z.log2_nonneg n); lia |].
    cbn [radixDigits].
    rewrite !Nat2Z.inj_succ, !Z.pow_succ_r in Hn by lia.
    rewrite Nat2Z.inj_succ, Z.pow_succ_r in IH by lia.
    assert (0 < radix ^ Z.of_nat k) as Hpos by (apply Z.pow_pos_nonneg; lia).
    assert (radix ^ Z.of_nat k <= n / radix) as Hlo by (apply Z.div_le_lower_bound; lia).
    assert (n / radix < radix * radix ^ Z.of_nat k) as Hhi
      by (apply Z.div_lt_upper_bound; lia).
    destruct (Z.eqb_spec (n / radix) 0) as [Hq | Hq]; [lia |].
    rewrite radixDigits_app, length_app. cbn [length].
    rewrite (IH fuel (n / radix)); [lia | lia |].
    assert (n / radix <= n / 2) as Hle by (apply Z.div_le_compat_l; lia).
    pose proof (Z.log2_le_mono _ _ Hle) as Hmono.
    replace (n / 2) with (Z.shiftr n 1) in Hmono by (by rewrite Z.shiftr_div_pow2).
    rewrite Z.log2_shiftr in Hmono by lia.
    pose proof (Z.log2_le_mono 2 n ltac:(nia)) as Hone.
    change (Z.log2 2) with 1 in Hone. lia.
Qed.

Local Close Scope Z_scope.

(** Calls other than a create that goes through add no id. *)
Lemma ids_not_created (c : Call) (w : World) (i : jsstring) :
  match c with Create _ => injected w = true | _ => True end →
  i ∈ ids (invoke c w).2 → i ∈ ids w.
Proof.
  rewrite invoke_world. destruct c as [| todoData | todoData | j]; intros Hc.
  - by rewrite fetchTodos_eq.
  - rewrite createTodo_eq, Hc. done.
  - destruct (success (updateTodo todoData w).1) eqn:Hok.
    + destruct (updateTodo_found _ _ Hok) as (_ & k & old & Hk & Hid & _ & _ & Htodos).
      unfold ids. rewrite Htodos, list_fmap_insert. cbn [merge Todo.id].
      rewrite list_insert_id; [done |]. by rewrite list_lookup_fmap, Hk, <- Hid.
    + unfold ids. by rewrite (updateTodo_failure_keeps_todos _ _ Hok).
  - rewrite deleteTodo_eq. destruct (injected w); [done |]. cbv zeta.
    destruct (_ =? -1)%Z; [done |]. unfold ids, splice. cbn [snd todos].
    rewrite fmap_app, fmap_take, fmap_drop.
    intros [H | H]%elem_of_app;
      [eapply elem_of_sublist, sublist_take | eapply elem_of_sublist, sublist_drop]; done.
Qed.


(** ** Update of an id the store does not hold *)

(** C1, as stated, fails: in the freshly loaded module, with a draw of 0,
    updating the unknown id "404" is answered with the injected failure,
    whose message does not speak of a record not found. *)
Lemma update_missing_id_injected_failure :
  let todoData := UpdateTodoRequest.mk (js "404") None None (Some true) in
  let w := initialWorld tickingClock stormy in
  (UpdateTodoRequest.id todoData ∉ ids w)
  ∧ error (updateTodo todoData w).1 = Some (js "Failed to update todo. Please try again.")
  ∧ notFoundClass (updateTodo todoData w).1 = false.
Proof.
  cbv zeta. split; [| split].
  - apply (bool_decide_unpack _). vm_compute. exact I.
  - vm_compute. reflexivity.
  - vm_compute. reflexivity.
Qed.

(** C1 (amended): updating an id that no record of the store carries
    always fails and leaves the store as it was; the error is the
    injected failure when the draw is below the threshold and
    "Todo not found" otherwise. *)
Theorem updateTodo_missing_id (todoData : UpdateTodoRequest.t) (w : World) :
  UpdateTodoRequest.id todoData ∉ ids w →
  success (updateTodo todoData w).1 = false
  ∧ data (updateTodo todoData w).1 = None
  ∧ error (updateTodo todoData w).1 =
      Some (if injected w then js "Failed to update todo. Please try again."
            else js "Todo not found")
  ∧ (injected w = false → notFoundClass (updateTodo todoData w).1 = true)
  ∧ todos (updateTodo todoData w).2 = todos w
  ∧ length (todos (updateTodo todoData w).2) = length (todos w).
Proof.
  intros Hmissing. rewrite updateTodo_eq.
  destruct (injected w); [by repeat split |].
  cbv zeta. rewrite (todoIndexOf_absent _ _ Hmissing).
  change (-1 =? -1)%Z with true. cbv iota.
  repeat split.
Qed.

Lemma updateTodo_missing_id_witness :
  let todoData := UpdateTodoRequest.mk (js "404") None None (Some true) in
  let w := initialWorld tickingClock calm in
  success (updateTodo todoData w).1 = false
  ∧ error (updateTodo todoData w).1 = Some (js "Todo not found")
  ∧ length (todos (updateTodo todoData w).2) = 3%nat.
Proof.
  cbv zeta.
  destruct (updateTodo_missing_id
              (UpdateTodoRequest.mk (js "404") None None (Some true))
              (initialWorld tickingClock calm)) as (Hs & _ & He & _ & _ & Hl).
  - apply (bool_decide_unpack _). vm_compute. exact I.
  - split; [exact Hs |]. split; [exact He | exact Hl].
Defined.

(** ** Failures leave the store alone *)

(** C5: whichever of the four operations is called, in whatever world
    (so for every draw), an envelope with [success = false] comes with a
    collection equal to the one before the call. *)
Theorem failure_leaves_todos_unchanged (c : Call) (w : World) :
  succeeded (invoke c w).1 = false → todos (invoke c w).2 = todos w.
Proof.
  destruct c as [| todoData | todoData | i]; cbn [invoke prod_map fst snd succeeded].
  - by rewrite fetchTodos_eq.
  - rewrite createTodo_eq. by destruct (injected w).
  - rewrite updateTodo_eq. destruct (injected w); [done |].
    cbv zeta. destruct (_ =? -1)%Z; [done |].
    by destruct (index _ _).
  - rewrite deleteTodo_eq. destruct (injected w); [done |].
    cbv zeta. by destruct (_ =? -1)%Z.
Qed.

Lemma failure_leaves_todos_unchanged_witness :
  todos (invoke (Delete (js "2")) (initialWorld tickingClock stormy)).2 = seed.
Proof.
  apply (failure_leaves_todos_unchanged (Delete (js "2")) (initialWorld tickingClock stormy)).
  vm_compute. reflexivity.
Defined.

(** ** Listing *)

(** C6: the list operation answers [success = true] with the whole
    current collection as [data], in every world; it consumes no draw and
    leaves the world as it found it. *)
Theorem fetchTodos_always_succeeds (w : World) :
  success (fetchTodos w).1 = true
  ∧ data (fetchTodos w).1 = Some (todos w)
  ∧ error (fetchTodos w).1 = None
  ∧ (fetchTodos w).2 = w.
Proof.
  unfold fetchTodos. rewrite shouldFail_fetch.
  (* no draw is made: the body goes straight to the [return] *)
  repeat split.
Qed.

(** ** Deleting *)

(** C7: a successful delete of an id held by the store removes the one
    record found under that id (the first one carrying it) and nothing
    else, so the collection is one shorter, and with distinct ids the id
    is gone from the store; a delete of an id the store
    does not hold fails, leaves the collection as it was, and its
    envelope has the extra [message] "Failed to delete todo". *)
Theorem deleteTodo_effect (i : jsstring) (w : World) :
  (i ∈ ids w → success (deleteTodo i w).1 = true →
     ∃ (k : nat) (r : Todo.t),
       todos w !! k = Some r ∧ Todo.id r = i
       ∧ (i ∉ (Todo.id <$> take k (todos w)))
       ∧ todos (deleteTodo i w).2 = take k (todos w) ++ drop (S k) (todos w)
       ∧ S (length (todos (deleteTodo i w).2)) = length (todos w)
       ∧ (NoDup (ids w) → i ∉ ids (deleteTodo i w).2))
  ∧ (i ∉ ids w →
       success (deleteTodo i w).1 = false
       ∧ todos (deleteTodo i w).2 = todos w
       ∧ length (todos (deleteTodo i w).2) = length (todos w)
       ∧ is_Some (error (deleteTodo i w).1)
       ∧ message (deleteTodo i w).1 = Some (js "Failed to delete todo")).
Proof.
  rewrite deleteTodo_eq. split.
  - intros Hin. destruct (injected w); [done |]. cbv zeta.
    destruct (todoIndexOf_present _ _ Hin) as (k & r & Hk & Hr & Hid & Hfirst).
    rewrite Hk. replace (Z.of_nat k =? -1)%Z with false by (symmetry; apply Z.eqb_neq; lia).
    intros _. exists k, r. cbn [snd todos].
    assert (k < length (todos w))%nat as Hlt by (eapply lookup_lt_Some; eauto).
    rewrite (splice_one _ _ Hlt). repeat split; try done.
    + rewrite length_app, length_take, length_drop. lia.
    + intros Hnodup. unfold ids in *. cbn [todos].
      rewrite <- delete_take_drop, list_fmap_delete.
      apply not_elem_of_delete_NoDup; [done |]. by rewrite list_lookup_fmap, Hr, <- Hid.
  - intros Hmissing. destruct (injected w); [by repeat split; eauto |].
    cbv zeta. rewrite (todoIndexOf_absent _ _ Hmissing).
    change (-1 =? -1)%Z with true. cbv iota. by repeat split; eauto.
Qed.

Lemma deleteTodo_effect_witness :
  (∃ (k : nat) (r : Todo.t),
      seed !! k = Some r ∧ Todo.id r = js "2"
      ∧ todos (deleteTodo (js "2") (initialWorld tickingClock calm)).2
        = take k seed ++ drop (S k) seed)
  ∧ message (deleteTodo (js "404") (initialWorld tickingClock calm)).1
    = Some (js "Failed to delete todo").
Proof.
  split.
  - destruct (deleteTodo_effect (js "2") (initialWorld tickingClock calm)) as [Hpresent _].
    destruct Hpresent as (k & r & Hk & Hr & _ & Ht & _ & _).
    + apply (bool_decide_unpack _). vm_compute. exact I.
    + vm_compute. reflexivity.
    + exists k, r. split; [exact Hk |]. split; [exact Hr | exact Ht].
  - destruct (deleteTodo_effect (js "404") (initialWorld tickingClock calm)) as [_ Hmissing].
    destruct Hmissing as (_ & _ & _ & _ & Hm).
    + apply (bool_decide_unpack _). vm_compute. exact I.
    + exact Hm.
Defined.

(** ** Envelopes *)

Ltac envelope_shape :=
  unfold wellFormed; cbn [success data error message fst snd failure deleteFailure errorMessage];
  first [ by eauto
        | split; [eexists; split; [reflexivity | discriminate] | reflexivity] ].

(** C10: every envelope the four operations return is well formed (a
    success has [data] and [message] and no [error]; a failure has a
    non-empty [error] and no [data]), and a failed delete always carries
    the message "Failed to delete todo", whether the id was not found or
    the failure was injected: the two envelopes differ in [error] only. *)
Theorem envelopes_well_formed (c : Call) (w : World) :
  replyWellFormed (invoke c w).1
  ∧ ∀ i : jsstring,
      success (deleteTodo i w).1 = false →
      (deleteTodo i w).1 =
        {| success := false;
           data := None;
           error := Some (if injected w then js "Failed to delete todo. Please try again."
                          else js "Todo not found");
           message := Some (js "Failed to delete todo") |}.
Proof.
  split.
  - destruct c as [| todoData | todoData | i]; cbn [invoke prod_map fst snd replyWellFormed].
    + rewrite fetchTodos_eq. envelope_shape.
    + rewrite createTodo_eq. destruct (injected w); envelope_shape.
    + rewrite updateTodo_eq. destruct (injected w); [envelope_shape |].
      cbv zeta. destruct (_ =? -1)%Z; [envelope_shape |].
      destruct (index _ _); envelope_shape.
    + rewrite deleteTodo_eq. destruct (injected w); [envelope_shape |].
      cbv zeta. destruct (_ =? -1)%Z; envelope_shape.
  - intros i. rewrite deleteTodo_eq. destruct (injected w); [done |].
    cbv zeta. by destruct (_ =? -1)%Z.
Qed.

Lemma envelopes_well_formed_witness :
  (deleteTodo (js "3") (initialWorld tickingClock stormy)).1 =
    {| success := false;
       data := None;
       error := Some (js "Failed to delete todo. Please try again.");
       message := Some (js "Failed to delete todo") |}.
Proof.
  destruct (envelopes_well_formed Fetch (initialWorld tickingClock stormy)) as [_ H].
  apply (H (js "3")). vm_compute. reflexivity.
Defined.

(** ** The two timestamps *)

(** C2 asks that [updatedAt] ≥ [createdAt] for every record, those the
    module is loaded with included.  The first seeded record breaks it:
    created at 11:00 and last updated at 10:00 of the same day, one hour
    earlier.  This holds whatever the clock and the draws are. *)
Theorem seed_record_updated_before_created (clock : nat → Z) (random : nat → RandomDraw) :
  ∃ r : Todo.t,
    todos (initialWorld clock random) !! 0%nat = Some r
    ∧ Todo.id r = js "1"
    ∧ Date.parse (Todo.createdAt r) = Some 1756724400000%Z
    ∧ Date.parse (Todo.updatedAt r) = Some 1756720800000%Z
    ∧ stampsOrdered r = false.
Proof.
  eexists. split; [reflexivity |].
  repeat split; vm_compute; reflexivity.
Qed.

(** ** Creating *)

(** What a successful [createTodo] does: the record it returns is the
    one it appended to the collection, not completed, with the trimmed
    title and description; [createdAt] and [updatedAt] render two
    successive readings of the clock. *)
Lemma createTodo_success (todoData : CreateTodoRequest.t) (w : World) :
  success (createTodo todoData w).1 = true →
  ∃ r : Todo.t,
    data (createTodo todoData w).1 = Some r
    ∧ todos (createTodo todoData w).2 = todos w ++ [r]
    ∧ Todo.completed r = false
    ∧ Todo.title r = trim (CreateTodoRequest.title todoData)
    ∧ Todo.description r = trim (CreateTodoRequest.description todoData)
    ∧ Todo.createdAt r = Date.toISOString (clock w (S (clockReads w)))
    ∧ Todo.updatedAt r = Date.toISOString (clock w (S (S (clockReads w)))).
Proof.
  rewrite createTodo_eq. destruct (injected w); [done |]. intros _.
  exists (newTodo todoData w). by repeat split.
Qed.

(** The two stamps of a created record are equal exactly when the clock
    showed the same millisecond at both readings. *)
Lemma createTodo_stamps (todoData : CreateTodoRequest.t) (w : World) (r : Todo.t) :
  timeValue (clock w (S (clockReads w))) →
  timeValue (clock w (S (S (clockReads w)))) →
  data (createTodo todoData w).1 = Some r →
  Todo.createdAt r = Todo.updatedAt r
  ↔ clock w (S (clockReads w)) = clock w (S (S (clockReads w))).
Proof.
  intros H1 H2. rewrite createTodo_eq. destruct (injected w); [done |].
  cbn [fst data]. intros [= <-]. cbn [newTodo Todo.createdAt Todo.updatedAt]. split.
  - by apply toISOString_inj.
  - by intros ->.
Qed.

(** C3 asks that [createdAt] equals [updatedAt] in every created record.
    [createTodo] reads the clock once for each stamp: with a clock that
    advances by a millisecond per reading, the record created in the
    freshly loaded module is stamped 11:00:00.001 and 11:00:00.002. *)
Theorem createTodo_stamps_differ_when_clock_ticks :
  ∃ r : Todo.t,
    success (createTodo buyMilk (initialWorld tickingClock calm)).1 = true
    ∧ data (createTodo buyMilk (initialWorld tickingClock calm)).1 = Some r
    ∧ Todo.createdAt r = js "2025-09-01T11:00:00.001Z"
    ∧ Todo.updatedAt r = js "2025-09-01T11:00:00.002Z"
    ∧ Todo.createdAt r ≠ Todo.updatedAt r.
Proof.
  eexists. split; [vm_compute; reflexivity |].
  split; [vm_compute; reflexivity |].
  repeat split; vm_compute; try reflexivity. discriminate.
Qed.

(** ** Updating *)

(** C4, as stated, fails: of two updates of the seeded record "2" that
    resume while the clock shows the same millisecond, the second
    succeeds and leaves [updatedAt] where the first put it. *)
Lemma update_in_the_same_millisecond :
  let todoData := UpdateTodoRequest.mk (js "2") None None (Some false) in
  let w := (updateTodo todoData (initialWorld frozenClock calm)).2 in
  ∃ old new : Todo.t,
    todos w !! 1%nat = Some old
    ∧ Todo.id old = js "2"
    ∧ success (updateTodo todoData w).1 = true
    ∧ data (updateTodo todoData w).1 = Some new
    ∧ Todo.updatedAt new = Todo.updatedAt old
    ∧ instantLtb (Todo.updatedAt old) (Todo.updatedAt new) = false.
Proof.
  cbv zeta. eexists. eexists.
  split; [vm_compute; reflexivity |].
  split; [vm_compute; reflexivity |].
  split; [vm_compute; reflexivity |].
  split; [vm_compute; reflexivity |].
  split; vm_compute; reflexivity.
Qed.

(** C4 (amended): a successful update replaces, in place, the record
    whose [id] is the payload's, the first one if several carry it: no
    record before position [k] has that id, the record at [k] has it and
    only position [k] is written.  The new record has the same [id] and
    [createdAt], takes [title], [description] and [completed] from the
    payload where it supplies them and from the old record where it does
    not, and its [updatedAt] renders the reading of the clock, which is
    later than the old stamp exactly when that reading is. *)
Theorem updateTodo_success (todoData : UpdateTodoRequest.t) (w : World) :
  success (updateTodo todoData w).1 = true →
  ∃ (k : nat) (old new : Todo.t),
    todos w !! k = Some old
    ∧ Todo.id old = UpdateTodoRequest.id todoData
    ∧ (UpdateTodoRequest.id todoData ∉ Todo.id <$> take k (todos w))
    ∧ data (updateTodo todoData w).1 = Some new
    ∧ todos (updateTodo todoData w).2 = <[k := new]> (todos w)
    ∧ Todo.id new = Todo.id old
    ∧ Todo.createdAt new = Todo.createdAt old
    ∧ Todo.title new = default (Todo.title old) (UpdateTodoRequest.title todoData)
    ∧ Todo.description new
      = default (Todo.description old) (UpdateTodoRequest.description todoData)
    ∧ Todo.completed new
      = default (Todo.completed old) (UpdateTodoRequest.completed todoData)
    ∧ Todo.updatedAt new = Date.toISOString (nextClock w)
    ∧ ∀ t0 : Z,
        Date.parse (Todo.updatedAt old) = Some t0 → timeValue (nextClock w) →
        instantLtb (Todo.updatedAt old) (Todo.updatedAt new) = (t0 <? nextClock w)%Z.
Proof.
  intros Hok.
  destruct (updateTodo_found _ _ Hok) as (_ & k & old & Hk & Hid & Hfirst & Hdata & Htodos).
  exists k, old, (merge old todoData (Date.toISOString (nextClock w))).
  split; [done |]. split; [done |]. split; [done |].
  repeat split; try done.
  intros t0 Hstamp Hnow. by apply instantLtb_toISOString.
Qed.

Lemma updateTodo_success_witness :
  ∃ (k : nat) (old new : Todo.t),
    seed !! k = Some old
    ∧ Todo.id old = js "2"
    ∧ data (updateTodo (UpdateTodoRequest.mk (js "2") (Some (js "Wait for FC26")) None None)
              (initialWorld tickingClock calm)).1 = Some new
    ∧ Todo.createdAt new = Todo.createdAt old
    ∧ Todo.description new = Todo.description old
    ∧ Todo.title new = js "Wait for FC26".
Proof.
  destruct (updateTodo_success
              (UpdateTodoRequest.mk (js "2") (Some (js "Wait for FC26")) None None)
              (initialWorld tickingClock calm))
    as (k & old & new & Hk & Hid & _ & Hdata & _ & _ & Hcreated & Htitle & Hdescr & _).
  - vm_compute. reflexivity.
  - exists k, old, new. repeat split; assumption.
Defined.

(** C8: when two calls of [updateTodo] with the same payload follow one
    another and both succeed, every record of the collection has the same
    [id], [title], [description], [completed] and [createdAt] after the
    second call as after the first, and so have the two records
    returned; only [updatedAt] can differ. *)
Theorem updateTodo_idempotent (todoData : UpdateTodoRequest.t) (w : World) :
  success (updateTodo todoData w).1 = true →
  success (updateTodo todoData (updateTodo todoData w).2).1 = true →
  exceptUpdatedAt <$> todos (updateTodo todoData (updateTodo todoData w).2).2
  = exceptUpdatedAt <$> todos (updateTodo todoData w).2
  ∧ exceptUpdatedAt <$> data (updateTodo todoData (updateTodo todoData w).2).1
    = exceptUpdatedAt <$> data (updateTodo todoData w).1.
Proof.
  intros Hok1 Hok2.
  destruct (updateTodo_found _ _ Hok1)
    as (_ & k & old & Hk & Hid & Hfirst & Hdata1 & Htodos1).
  destruct (updateTodo_found _ _ Hok2)
    as (_ & k' & old' & Hk' & Hid' & Hfirst' & Hdata2 & Htodos2).
  set (w1 := (updateTodo todoData w).2) in *.
  assert (k < length (todos w))%nat as Hlt by (eapply lookup_lt_Some; eauto).
  (* the second call finds the record the first call wrote *)
  assert (k' = k) as ->.
  { destruct (Nat.lt_trichotomy k' k) as [Hlt' | [Heq | Hgt]]; [| done |]; exfalso.
    - apply Hfirst. rewrite Htodos1, list_lookup_insert_ne in Hk' by lia.
      apply list_elem_of_fmap. exists old'. split; [done |].
      apply list_elem_of_lookup. exists k'. by rewrite lookup_take_lt by lia.
    - apply Hfirst'. apply list_elem_of_fmap.
      exists (merge old todoData (Date.toISOString (nextClock w))). split; [done |].
      apply list_elem_of_lookup. exists k. rewrite lookup_take_lt by lia.
      rewrite Htodos1. by apply list_lookup_insert_eq. }
  rewrite Htodos1, list_lookup_insert_eq in Hk' by done.
  injection Hk' as <-.
  rewrite Hdata2, Hdata1, Htodos2, Htodos1. cbn [fmap option_fmap option_map].
  rewrite list_insert_insert_eq, !list_fmap_insert, merge_twice. done.
Qed.

Lemma updateTodo_idempotent_witness :
  exceptUpdatedAt <$>
    todos (updateTodo (UpdateTodoRequest.mk (js "1") None None (Some true))
             (updateTodo (UpdateTodoRequest.mk (js "1") None None (Some true))
                (initialWorld tickingClock calm)).2).2
  = exceptUpdatedAt <$>
      todos (updateTodo (UpdateTodoRequest.mk (js "1") None None (Some true))
               (initialWorld tickingClock calm)).2.
Proof.
  apply (updateTodo_idempotent (UpdateTodoRequest.mk (js "1") None None (Some true))
           (initialWorld tickingClock calm)).
  - vm_compute. reflexivity.
  - vm_compute. reflexivity.
Defined.

(** ** Identifiers *)

(** C9, as stated, fails: two records created while the clock shows the
    same millisecond and [Math.random] returns the same number get the
    same id. *)
Lemma colliding_ids :
  ¬ NoDup (ids (run [Create buyMilk; Create buyMilk] (initialWorld frozenClock calm))).
Proof.
  intros H. apply (bool_decide_eq_true_2 _) in H. vm_compute in H. discriminate.
Qed.

Lemma seed_ids_distinct (clock : nat → Z) (random : nat → RandomDraw) :
  NoDup (ids (initialWorld clock random)).
Proof. apply (bool_decide_unpack _). vm_compute. exact I. Qed.

(** One call keeps the ids pairwise distinct, provided the id a
    successful [Create] generates is not in the store yet. *)
Lemma invoke_keeps_ids_distinct (c : Call) (w : World) :
  NoDup (ids w) → createsFreshIds [c] w = true → NoDup (ids (invoke c w).2).
Proof.
  intros Hnodup Hfresh. rewrite invoke_world.
  destruct c as [| todoData | todoData | i].
  - by rewrite fetchTodos_eq.
  - cbn [createsFreshIds] in Hfresh. rewrite createTodo_eq in *.
    destruct (injected w); [done |]. cbn [fst snd data] in *.
    rewrite andb_true_r in Hfresh. apply bool_decide_eq_true in Hfresh.
    unfold ids in *. cbn [todos]. rewrite fmap_app. apply NoDup_app.
    split; [done |]. split; [| apply NoDup_singleton].
    intros x Hx Hx'. apply list_elem_of_singleton in Hx'. by subst x.
  - destruct (success (updateTodo todoData w).1) eqn:Hok.
    + destruct (updateTodo_found _ _ Hok) as (_ & k & old & Hk & Hid & _ & _ & Htodos).
      unfold ids in *. rewrite Htodos, list_fmap_insert. cbn [merge Todo.id].
      rewrite list_insert_id; [done |]. by rewrite list_lookup_fmap, Hk, <- Hid.
    + unfold ids.
      by rewrite (updateTodo_failure_keeps_todos todoData w Hok).
  - rewrite deleteTodo_eq. destruct (injected w); [done |]. cbv zeta.
    destruct (todoIndexOf_cases i w) as [[-> _] | (k & r & -> & Hk & _)]; [done |].
    replace (Z.of_nat k =? -1)%Z with false by (symmetry; apply Z.eqb_neq; lia).
    unfold ids in *. cbn [snd todos].
    rewrite splice_one by (eapply lookup_lt_Some; eauto).
    rewrite <- delete_take_drop, list_fmap_delete.
    eapply sublist_NoDup; [exact Hnodup | apply sublist_delete].
Qed.

(** Pairs that differ are not enough when the renderings of the clock
    differ in length.  A reading of one digit can give an id of one
    character, as the seeded records have: *)
Lemma one_digit_reading_collides :
  NoDup (generatedParts [Create buyMilk] (initialWorld atTheEpoch halfThenZero))
  ∧ ids (run [Create buyMilk] (initialWorld atTheEpoch halfThenZero))
    = [js "1"; js "2"; js "3"; js "1"].
Proof.
  split; [apply (bool_decide_unpack _); vm_compute; exact I | vm_compute; reflexivity].
Qed.

(** and a reading of two digits and one of three can give the same id
    with different draws: *)
Lemma readings_of_two_lengths_collide :
  generatedParts [Create buyMilk; Create buyMilk] (initialWorld earlyClock dyadicDraws)
  = [(36%Z, js "0k9"); (1296%Z, js "k9")]
  ∧ ids (run [Create buyMilk; Create buyMilk] (initialWorld earlyClock dyadicDraws))
    = [js "1"; js "2"; js "3"; js "100k9"; js "100k9"].
Proof. split; vm_compute; reflexivity. Qed.

Lemma length_digits36 (n : nat) (t : Z) :
  (1 ≤ n)%nat → digits36 n t → length (Number_toString 36 t) = n.
Proof.
  intros Hn [Hlo Hhi]. destruct n as [| k]; [lia |].
  replace (Z.of_nat (S k) - 1)%Z with (Z.of_nat k) in Hlo by lia.
  assert (0 < 36 ^ Z.of_nat k)%Z as Hpos by (apply Z.pow_pos_nonneg; lia).
  unfold Number_toString.
  replace (t <? 0)%Z with false by (symmetry; apply Z.ltb_ge; lia).
  apply (length_radixDigits k); [lia | split; [exact Hlo | exact Hhi] |].
  pose proof (Z.log2_nonneg t). lia.
Qed.

(** Among readings of one length, an id determines the reading and the
    suffix it was generated from. *)
Lemma id_determines_parts (n : nat) (t1 t2 : Z) (s1 s2 : jsstring) :
  (1 ≤ n)%nat → digits36 n t1 → digits36 n t2 →
  Number_toString 36 t1 ++ s1 = Number_toString 36 t2 ++ s2 → (t1, s1) = (t2, s2).
Proof.
  intros Hn H1 H2 Heq.
  apply app_inj_1 in Heq as [Heq ->]; [| by rewrite !(length_digits36 n)].
  f_equal.
  assert (0 <= t1 ∧ 0 <= t2)%Z as [Hpos1 Hpos2].
  { destruct H1 as [H1 _], H2 as [H2 _].
    assert (0 <= 36 ^ (Z.of_nat n - 1))%Z by (apply Z.pow_nonneg; lia). lia. }
  rewrite <- (fromDigits_Number_toString 36 t1), <- (fromDigits_Number_toString 36 t2), Heq;
    [done | lia | done | lia | done].
Qed.

Lemma generatedParts_ids_distinct
    (n : nat) (calls : list Call) (w : World) (seen : list (Z * jsstring)) :
  (2 ≤ n)%nat →
  NoDup (ids w) →
  (∀ i, i ∈ ids w →
        length i = 1%nat
        ∨ ∃ (t : Z) (s : jsstring),
            (t, s) ∈ seen ∧ digits36 n t ∧ i = Number_toString 36 t ++ s) →
  NoDup (seen ++ generatedParts calls w) →
  Forall (λ p, digits36 n p.1) (generatedParts calls w) →
  NoDup (ids (run calls w)).
Proof.
  intros Hn. revert w seen.
  induction calls as [| c calls IH]; intros w seen Hnodup Hshape Hparts Hlen; [done |].
  cbn [run generatedParts] in *.
  assert (match c with Create _ => injected w = true | _ => True end
          ∨ ¬ match c with Create _ => injected w = true | _ => True end) as [Hc | Hc]
    by (destruct c; try (by left); destruct (injected w); [by left | by right]).
  - (* no id is added *)
    assert (match c with Create _ => if injected w then [] else [idParts w] | _ => [] end = [])
      as Hnone by (destruct c; try done; by rewrite Hc).
    rewrite Hnone in *. cbn [app] in *.
    apply (IH _ seen); [| | done | done].
    + apply invoke_keeps_ids_distinct; [done |].
      destruct c as [| todoData | |]; try done. cbn [createsFreshIds].
      rewrite createTodo_eq, Hc. done.
    + intros i Hi. apply Hshape. by eapply ids_not_created.
  - (* a create that goes through *)
    destruct c as [| todoData | |]; try done.
    apply not_true_is_false in Hc. rewrite Hc in *. cbn [app] in *.
    apply Forall_cons in Hlen as [Hnow Hlen]. cbn [idParts fst] in Hnow.
    assert (idParts w ∉ seen) as Hnew.
    { apply NoDup_app in Hparts as (_ & Hdisj & _). intros Hin.
      apply (Hdisj _ Hin). apply list_elem_of_here. }
    assert (ids (invoke (Create todoData) w).2
            = ids w ++ [Number_toString 36 (nextClock w)
                        ++ substr 2 (toString36 (random w (S (randomReads w))))]) as Hids.
    { rewrite invoke_world, createTodo_eq, Hc. unfold ids. cbn [snd todos].
      by rewrite fmap_app. }
    assert (Number_toString 36 (nextClock w)
            ++ substr 2 (toString36 (random w (S (randomReads w)))) ∉ ids w) as Hfresh.
    { intros Hin. destruct (Hshape _ Hin) as [Hone | (t & s & Ht & Hlen' & Heq)].
      - rewrite length_app, (length_digits36 n) in Hone by (done || lia). lia.
      - apply (id_determines_parts n) in Heq; [| lia | done | done].
        apply Hnew. unfold idParts. by rewrite Heq. }
    apply (IH _ (seen ++ [idParts w])); [| | | done].
    + rewrite Hids. apply NoDup_app. split; [done |]. split; [| apply NoDup_singleton].
      intros x Hx Hx'%list_elem_of_singleton. by subst x.
    + intros i Hi. rewrite Hids in Hi.
      apply elem_of_app in Hi as [Hi | Hi%list_elem_of_singleton].
      * destruct (Hshape _ Hi) as [Hone | (t & s & Ht & Hlen' & Heq)]; [by left |].
        right. exists t, s. split; [| done]. apply elem_of_app. by left.
      * right. eexists _, _. split; [| split; [exact Hnow | exact Hi]].
        apply elem_of_app. right. by apply list_elem_of_singleton.
    + by rewrite <- app_assoc.
Qed.

(** C9 (amended): from the loaded module on, after every sequence of
    calls and for every clock and every sequence of draws, the ids in the
    collection are pairwise distinct, provided no two creates that meet
    no injected failure generate their ids from the same reading of the
    clock together with the same random suffix (the draw's rendering in
    base 36 less its first two characters), and the readings they use
    have one and the same number [n] of digits in base 36, at least two
    (eight from 25 June 1972 to 25 May 2059).  Creates at the same
    reading with different suffixes, updates and deletes never introduce
    a duplicate. *)
Theorem ids_stay_distinct
    (clock : nat → Z) (random : nat → RandomDraw) (calls : list Call) (n : nat) :
  (2 ≤ n)%nat →
  Forall (λ p, digits36 n p.1) (generatedParts calls (initialWorld clock random)) →
  NoDup (generatedParts calls (initialWorld clock random)) →
  NoDup (ids (run calls (initialWorld clock random))).
Proof.
  intros Hn Hlen Hparts.
  apply (generatedParts_ids_distinct n _ _ []); [done | apply seed_ids_distinct | | done | done].
  intros i Hi. left.
  change (ids (initialWorld clock random)) with [js "1"; js "2"; js "3"] in Hi.
  repeat (apply elem_of_cons in Hi as [-> | Hi]; [done |]).
  by apply elem_of_nil in Hi.
Qed.

Lemma ids_stay_distinct_witness :
  generatedParts [Create buyMilk; Update (UpdateTodoRequest.mk (js "2") None None (Some false));
                  Create buyMilk; Delete (js "1"); Fetch]
    (initialWorld frozenClock assorted)
  = [(1756724400000%Z, js "9"); (1756724400000%Z, js "i")]
  ∧ NoDup (ids (run [Create buyMilk;
                     Update (UpdateTodoRequest.mk (js "2") None None (Some false));
                     Create buyMilk; Delete (js "1"); Fetch]
                  (initialWorld frozenClock assorted))).
Proof.
  split; [vm_compute; reflexivity |].
  apply (ids_stay_distinct frozenClock assorted _ 8).
  - lia.
  - unfold digits36. apply (bool_decide_unpack _). vm_compute. exact I.
  - apply (bool_decide_unpack _). vm_compute. exact I.
Defined.

(** * More about the mock API *)

(** ** The ids and the other records *)

Lemma filter_insert_other {A} (P : A → Prop) `{!∀ x, Decision (P x)}
    (l : list A) (k : nat) (x y : A) :
  l !! k = Some x → ¬ P x → ¬ P y → filter P (<[k := y]> l) = filter P l.
Proof.
  intros Hk Hx Hy.
  rewrite insert_take_drop by (eapply lookup_lt_Some; eauto).
  rewrite <- (take_drop_middle l k x Hk) at 3.
  rewrite !filter_app, !filter_cons_False by done. done.
Qed.

Lemma filter_delete_other {A} (P : A → Prop) `{!∀ x, Decision (P x)}
    (l : list A) (k : nat) (x : A) :
  l !! k = Some x → ¬ P x → filter P (take k l ++ drop (S k) l) = filter P l.
Proof.
  intros Hk Hx. rewrite <- (take_drop_middle l k x Hk) at 3.
  rewrite !filter_app, filter_cons_False by done. done.
Qed.

(** X1: an update, successful or not, leaves the ids of the store as they
    are, one by one: no record is added, removed or moved. *)
Theorem updateTodo_keeps_ids (todoData : UpdateTodoRequest.t) (w : World) :
  ids (updateTodo todoData w).2 = ids w.
Proof.
  destruct (success (updateTodo todoData w).1) eqn:Hok.
  - destruct (updateTodo_found _ _ Hok) as (_ & k & old & Hk & Hid & _ & _ & Htodos).
    unfold ids. rewrite Htodos, list_fmap_insert. cbn [merge Todo.id].
    apply list_insert_id. by rewrite list_lookup_fmap, Hk, <- Hid.
  - unfold ids. by rewrite (updateTodo_failure_keeps_todos _ _ Hok).
Qed.


(** X2: no call touches a record it is not aimed at: an update or a delete
    leaves the records under other ids as they are and in their order;
    a create or a fetch keeps the whole collection as the beginning of
    the new one. *)
Theorem other_records_untouched (c : Call) (w : World) :
  match target c with
  | Some i =>
      filter (λ r, Todo.id r ≠ i) (todos (invoke c w).2)
      = filter (λ r, Todo.id r ≠ i) (todos w)
  | None => todos w `prefix_of` todos (invoke c w).2
  end.
Proof.
  rewrite invoke_world. destruct c as [| todoData | todoData | i]; cbn [target].
  - by rewrite fetchTodos_eq.
  - rewrite createTodo_eq. destruct (injected w); [done |].
    cbn [snd todos]. by apply prefix_app_r.
  - destruct (success (updateTodo todoData w).1) eqn:Hok.
    + destruct (updateTodo_found _ _ Hok) as (_ & k & old & Hk & Hid & _ & _ & ->).
      eapply filter_insert_other; [done | |]; cbn; intros H; by apply H.
    + by rewrite (updateTodo_failure_keeps_todos _ _ Hok).
  - rewrite deleteTodo_eq. destruct (injected w); [done |]. cbv zeta.
    destruct (todoIndexOf_cases i w) as [[-> _] | (k & r & -> & Hk & Hid & _)]; [done |].
    replace (Z.of_nat k =? -1)%Z with false by (symmetry; apply Z.eqb_neq; lia).
    cbn [snd todos]. rewrite splice_one by (eapply lookup_lt_Some; eauto).
    eapply filter_delete_other; [done |]. intros H; by apply H.
Qed.

(** X3: deleting the id of the record a create has just returned
    succeeds.  When the generated id was not in the store, it gives back
    the collection as it was before the create; when it was, the delete
    removes the older record under that id, the first one, and the
    created one stays at the end. *)
Theorem create_then_delete (todoData : CreateTodoRequest.t) (w : World) (r : Todo.t) :
  data (createTodo todoData w).1 = Some r →
  injected (createTodo todoData w).2 = false →
  success (deleteTodo (Todo.id r) (createTodo todoData w).2).1 = true
  ∧ (Todo.id r ∉ ids w →
       todos (deleteTodo (Todo.id r) (createTodo todoData w).2).2 = todos w)
  ∧ (Todo.id r ∈ ids w →
       ∃ (k : nat) (old : Todo.t),
         todos w !! k = Some old ∧ Todo.id old = Todo.id r
         ∧ (Todo.id r ∉ Todo.id <$> take k (todos w))
         ∧ todos (deleteTodo (Todo.id r) (createTodo todoData w).2).2
           = take k (todos w) ++ drop (S k) (todos w) ++ [r]).
Proof.
  rewrite createTodo_eq. destruct (injected w) eqn:Hinj; [done |].
  cbn [fst snd data]. intros [= <-] Hcalm.
  set (r := newTodo todoData w) in *.
  set (w1 := mkWorld _ _ _ _ _) in *.
  assert (todos w1 = todos w ++ [r]) as Hw1 by done.
  assert (Todo.id r ∈ ids w1) as Hin.
  { unfold ids. rewrite Hw1, fmap_app. apply elem_of_app. right. by apply list_elem_of_singleton. }
  rewrite deleteTodo_eq, Hcalm. cbv zeta.
  destruct (todoIndexOf_present _ _ Hin) as (k & x & -> & Hk & Hid & Hfirst).
  replace (Z.of_nat k =? -1)%Z with false by (symmetry; apply Z.eqb_neq; lia).
  cbn [fst snd success todos]. split; [done |].
  assert (k < length (todos w1))%nat as Hlt by (eapply lookup_lt_Some; eauto).
  rewrite splice_one by done. rewrite Hw1 in *. rewrite length_app in Hlt. cbn in Hlt.
  split.
  - intros Hfresh.
    assert (k = length (todos w)) as ->.
    { destruct (decide (k < length (todos w))%nat) as [Hk' |]; [| lia]. exfalso.
      rewrite lookup_app_l in Hk by done. apply Hfresh. unfold ids. rewrite <- Hid.
      apply list_elem_of_fmap. exists x. split; [done |]. apply list_elem_of_lookup. eauto. }
    rewrite take_app_length. rewrite drop_app_ge by lia.
    replace (S (length (todos w)) - length (todos w))%nat with 1%nat by lia.
    cbn. by rewrite app_nil_r.
  - intros Hold. destruct (todoIndexOf_present _ _ Hold) as (j & y & _ & Hj & Hidy & _).
    assert (j < length (todos w))%nat as Hjlt by (eapply lookup_lt_Some; eauto).
    assert (k < length (todos w))%nat as Hk'.
    { destruct (decide (k < length (todos w))%nat) as [|Hge]; [done |]. exfalso.
      apply Hfirst. apply list_elem_of_fmap. exists y. split; [done |].
      apply list_elem_of_lookup. exists j. rewrite lookup_take_lt by lia.
      by rewrite lookup_app_l. }
    exists k, x. rewrite lookup_app_l in Hk by done. split; [done |]. split; [done |].
    rewrite take_app_le in * by lia. split; [done |]. by rewrite drop_app_le by lia.
Qed.

Lemma create_then_delete_witness :
  todos (deleteTodo (js "mf10cm80i")
           (createTodo buyMilk (initialWorld tickingClock calm)).2).2 = seed.
Proof.
  destruct (create_then_delete buyMilk (initialWorld tickingClock calm)
              (newTodo buyMilk (initialWorld tickingClock calm)))
    as (_ & Hrestored & _).
  - vm_compute. reflexivity.
  - vm_compute. reflexivity.
  - apply Hrestored. apply (bool_decide_unpack _). vm_compute. exact I.
Defined.

(** ** Ids and the clock *)

Local Open Scope Z_scope.

Lemma length_toString36 (t : Z) :
  eightDigits t → length (Number_toString 36 t) = 8%nat.
Proof.
  intros [Hlo Hhi]. unfold Number_toString.
  replace (t <? 0) with false by (symmetry; apply Z.ltb_ge; lia).
  apply (length_radixDigits 7); [lia | split; [exact Hlo | exact Hhi] |].
  pose proof (Z.log2_nonneg t). lia.
Qed.

(** Ids generated from different readings of the clock are different,
    whatever [Math.random] adds to them. *)
Lemma ids_of_different_readings (t1 t2 : Z) (s1 s2 : jsstring) :
  eightDigits t1 → eightDigits t2 →
  Number_toString 36 t1 ++ s1 = Number_toString 36 t2 ++ s2 → t1 = t2.
Proof.
  intros H1 H2 Heq.
  apply app_inj_1 in Heq as [Heq _]; [| by rewrite !length_toString36].
  rewrite <- (fromDigits_Number_toString 36 t1), <- (fromDigits_Number_toString 36 t2), Heq;
    [done | lia | | lia |]; unfold eightDigits in *; lia.
Qed.

Local Close Scope Z_scope.

Lemma run_ids_distinct (calls : list Call) (w : World) (seen : list Z) :
  NoDup (ids w) →
  (∀ i, i ∈ ids w →
        length i = 1%nat
        ∨ ∃ (t : Z) (s : jsstring), t ∈ seen ∧ eightDigits t ∧ i = Number_toString 36 t ++ s) →
  NoDup (seen ++ idReadings calls w) →
  Forall eightDigits (idReadings calls w) →
  NoDup (ids (run calls w)).
Proof.
  revert w seen. induction calls as [| c calls IH]; intros w seen Hnodup Hshape Htimes Hera;
    [done |].
  cbn [run idReadings] in *.
  assert (match c with Create _ => injected w = true | _ => True end
          ∨ ¬ match c with Create _ => injected w = true | _ => True end) as [Hc | Hc]
    by (destruct c; try (by left); destruct (injected w); [by left | by right]).
  - (* no id is added *)
    assert (match c with Create _ => if injected w then [] else [nextClock w] | _ => [] end = [])
      as Hnone by (destruct c; try done; by rewrite Hc).
    rewrite Hnone in *. cbn [app] in *.
    apply (IH _ seen); [| | done | done].
    + apply invoke_keeps_ids_distinct; [done |].
      destruct c as [| todoData | |]; try done. cbn [createsFreshIds].
      rewrite createTodo_eq, Hc. done.
    + intros i Hi. apply Hshape. by eapply ids_not_created.
  - (* a create that goes through *)
    destruct c as [| todoData | |]; try done.
    apply not_true_is_false in Hc. rewrite Hc in *. cbn [app] in *.
    apply Forall_cons in Hera as [Hnow Hera].
    assert (nextClock w ∉ seen) as Hnew.
    { apply NoDup_app in Htimes as (_ & Hdisj & _). intros Hin.
      apply (Hdisj _ Hin). apply list_elem_of_here. }
    assert (ids (invoke (Create todoData) w).2
            = ids w ++ [Number_toString 36 (nextClock w)
                        ++ substr 2 (toString36 (random w (S (randomReads w))))]) as Hids.
    { rewrite invoke_world, createTodo_eq, Hc. unfold ids. cbn [snd todos].
      by rewrite fmap_app. }
    assert (Number_toString 36 (nextClock w)
            ++ substr 2 (toString36 (random w (S (randomReads w)))) ∉ ids w) as Hfresh.
    { intros Hin. destruct (Hshape _ Hin) as [Hlen | (t & s & Ht & Hera' & Heq)].
      - rewrite length_app, length_toString36 in Hlen by done. lia.
      - apply ids_of_different_readings in Heq; [| done | done]. by subst t. }
    apply (IH _ (seen ++ [nextClock w])); [| | | done].
    + rewrite Hids. apply NoDup_app. split; [done |]. split; [| apply NoDup_singleton].
      intros x Hx Hx'%list_elem_of_singleton. by subst x.
    + intros i Hi. rewrite Hids in Hi. apply elem_of_app in Hi as [Hi | Hi%list_elem_of_singleton].
      * destruct (Hshape _ Hi) as [Hlen | (t & s & Ht & Hera' & Heq)]; [by left |].
        right. exists t, s. split; [| done]. apply elem_of_app. by left.
      * right. eexists _, _. split; [| split; [exact Hnow | exact Hi]].
        apply elem_of_app. right. by apply list_elem_of_singleton.
    + by rewrite <- app_assoc.
Qed.

(** X4: from the loaded module on, the ids of the store stay pairwise
    distinct along every run in which no two creates generate their id
    at the same reading of the clock, for readings between 25 June 1972
    and 25 May 2059; what [Math.random] returns does not matter. *)
Theorem distinct_readings_distinct_ids
    (clock : nat → Z) (random : nat → RandomDraw) (calls : list Call) :
  NoDup (idReadings calls (initialWorld clock random)) →
  Forall eightDigits (idReadings calls (initialWorld clock random)) →
  NoDup (ids (run calls (initialWorld clock random))).
Proof.
  intros Htimes Hera. apply (run_ids_distinct _ _ []); [apply seed_ids_distinct | | done | done].
  intros i Hi. left.
  change (ids (initialWorld clock random)) with [js "1"; js "2"; js "3"] in Hi.
  repeat (apply elem_of_cons in Hi as [-> | Hi]; [done |]).
  by apply elem_of_nil in Hi.
Qed.

Lemma distinct_readings_distinct_ids_witness :
  NoDup (ids (run [Create buyMilk; Create buyMilk; Delete (js "1"); Create buyMilk]
                (initialWorld tickingClock calm))).
Proof.
  apply (distinct_readings_distinct_ids tickingClock calm).
  - apply (bool_decide_unpack _). vm_compute. exact I.
  - unfold eightDigits. apply (bool_decide_unpack _). vm_compute. exact I.
Defined.

(** * The forms *)

(** ** components/AddTodoForm.tsx *)

(** X5: a submission goes through exactly when the trimmed title has at
    least 3 characters and the trimmed description at least 5: then
    [onSubmit] receives the fields as typed and the form is emptied;
    otherwise [onSubmit] is not called, the fields are kept and an error
    message is set. *)
Theorem AddTodoForm_handleSubmit (s : AddTodoForm.State) :
  let title := trim (CreateTodoRequest.title (AddTodoForm.formData s)) in
  let description := trim (CreateTodoRequest.description (AddTodoForm.formData s)) in
  if bool_decide (3 ≤ length title ∧ 5 ≤ length description)
  then AddTodoForm.handleSubmit s = (AddTodoForm.initial, Some (AddTodoForm.formData s))
  else (AddTodoForm.handleSubmit s).2 = None
       ∧ AddTodoForm.formData (AddTodoForm.handleSubmit s).1 = AddTodoForm.formData s
       ∧ FormErrors.noKeys (AddTodoForm.errors (AddTodoForm.handleSubmit s).1) = false.
Proof.
  cbv zeta. unfold AddTodoForm.handleSubmit, AddTodoForm.validateForm. cbv zeta.
  destruct (trim (CreateTodoRequest.title _)) as [| a [| b [| c title]]];
    destruct (trim (CreateTodoRequest.description _)) as [| d [| e [| f [| g [| h descr]]]]];
    cbn; try (repeat split; done);
    rewrite bool_decide_eq_true_2 by (split; lia); done.
Qed.

(** What [onSubmit] receives has passed the validation. *)
Lemma handleSubmit_passes (s : AddTodoForm.State) (todoData : CreateTodoRequest.t) :
  (AddTodoForm.handleSubmit s).2 = Some todoData →
  todoData = AddTodoForm.formData s
  ∧ 3 ≤ length (trim (CreateTodoRequest.title todoData))
  ∧ 5 ≤ length (trim (CreateTodoRequest.description todoData)).
Proof.
  unfold AddTodoForm.handleSubmit, AddTodoForm.validateForm. cbv zeta.
  destruct (trim (CreateTodoRequest.title _)) as [| a [| b [| c title]]] eqn:Ht;
    destruct (trim (CreateTodoRequest.description _)) as [| d [| e [| f [| g [| h descr]]]]]
      eqn:Hd;
    cbn; try done.
  intros [= <-]. rewrite Ht, Hd. cbn. split; [done | lia].
Qed.

(** X6: whatever was typed into the form, a record created from a
    submission has a title of at least 3 and a description of at least 5
    characters, neither of which starts or ends with white space, and is
    not completed. *)
Theorem created_through_the_form
    (s : AddTodoForm.State) (todoData : CreateTodoRequest.t) (w : World) (r : Todo.t) :
  (AddTodoForm.handleSubmit s).2 = Some todoData →
  data (createTodo todoData w).1 = Some r →
  3 ≤ length (Todo.title r) ∧ 5 ≤ length (Todo.description r)
  ∧ (∀ c, head (Todo.title r) = Some c ∨ last (Todo.title r) = Some c →
          isWhiteSpace c = false)
  ∧ (∀ c, head (Todo.description r) = Some c ∨ last (Todo.description r) = Some c →
          isWhiteSpace c = false)
  ∧ Todo.completed r = false.
Proof.
  intros (_ & Htitle & Hdescr)%handleSubmit_passes.
  rewrite createTodo_eq. destruct (injected w); [done |].
  cbn [fst data]. intros [= <-]. cbn [newTodo Todo.title Todo.description Todo.completed].
  split; [done |]. split; [done |].
  destruct (trim_spec (CreateTodoRequest.title todoData)) as (_ & _ & _ & _ & _ & Hh & Hl).
  destruct (trim_spec (CreateTodoRequest.description todoData))
    as (_ & _ & _ & _ & _ & Hh' & Hl').
  repeat split; intros c [Hc | Hc]; eauto.
Qed.

Lemma created_through_the_form_witness :
  ∃ r : Todo.t,
    data (createTodo (CreateTodoRequest.mk (js "  Buy milk ") (js " 2 liters"))
            (initialWorld tickingClock calm)).1 = Some r
    ∧ 3 ≤ length (Todo.title r) ∧ Todo.completed r = false.
Proof.
  eexists. split; [vm_compute; reflexivity |].
  destruct (created_through_the_form
              (AddTodoForm.mkState (CreateTodoRequest.mk (js "  Buy milk ") (js " 2 liters"))
                 FormErrors.empty)
              (CreateTodoRequest.mk (js "  Buy milk ") (js " 2 liters"))
              (initialWorld tickingClock calm)
              _ ltac:(vm_compute; reflexivity) ltac:(vm_compute; reflexivity))
    as (Ht & _ & _ & _ & Hc).
  split; [exact Ht | exact Hc].
Defined.

(** ** components/TodoItem.tsx *)

(** What [onUpdate] receives from a saved edit has passed the
    validation and is trimmed. *)
Lemma handleSaveEdit_passes (todo : Todo.t) (s : TodoItem.State) (i : jsstring) (u : Updates.t) :
  (TodoItem.handleSaveEdit todo s).2 = Some (i, u) →
  i = Todo.id todo
  ∧ u = Updates.mk (Some (trim (TodoItem.title (TodoItem.editData s))))
                   (Some (trim (TodoItem.description (TodoItem.editData s)))) None
  ∧ 3 ≤ length (trim (TodoItem.title (TodoItem.editData s)))
  ∧ 5 ≤ length (trim (TodoItem.description (TodoItem.editData s))).
Proof.
  unfold TodoItem.handleSaveEdit, TodoItem.validateEditForm. cbv zeta.
  destruct (trim (TodoItem.title _)) as [| a [| b [| c title]]] eqn:Ht;
    destruct (trim (TodoItem.description _)) as [| d [| e [| f [| g [| h descr]]]]] eqn:Hd;
    cbn; try done.
  intros [= <- <-]. cbn. repeat split; lia.
Qed.

(** X7: a saved edit that the store accepts changes the title and the
    description of the record, to the trimmed texts of at least 3 and 5
    characters, and nothing else but [updatedAt]: [id], [completed] and
    [createdAt] are those the store held. *)
Theorem saved_edit (todo : Todo.t) (s : TodoItem.State) (i : jsstring) (u : Updates.t)
    (w : World) :
  (TodoItem.handleSaveEdit todo s).2 = Some (i, u) →
  success (updateTodo (App.withId i u) w).1 = true →
  ∃ old r : Todo.t,
    old ∈ todos w ∧ Todo.id old = Todo.id todo
    ∧ data (updateTodo (App.withId i u) w).1 = Some r
    ∧ Todo.id r = Todo.id todo
    ∧ Todo.title r = trim (TodoItem.title (TodoItem.editData s))
    ∧ 3 ≤ length (Todo.title r)
    ∧ Todo.description r = trim (TodoItem.description (TodoItem.editData s))
    ∧ 5 ≤ length (Todo.description r)
    ∧ Todo.completed r = Todo.completed old
    ∧ Todo.createdAt r = Todo.createdAt old.
Proof.
  intros (-> & -> & Htitle & Hdescr)%handleSaveEdit_passes Hok.
  destruct (updateTodo_found _ _ Hok) as (_ & k & old & Hk & Hid & _ & Hdata & _).
  eexists old, _. split; [apply list_elem_of_lookup; eauto |].
  split; [exact Hid |]. split; [exact Hdata |]. by repeat split.
Qed.

Lemma saved_edit_witness :
  ∃ old r : Todo.t,
    old ∈ seed
    ∧ data (updateTodo (App.withId (js "3")
                          (Updates.mk (Some (js "Polish my portfolio"))
                                      (Some (js "Add my recent projects")) None))
              (initialWorld tickingClock calm)).1 = Some r
    ∧ Todo.title r = js "Polish my portfolio"
    ∧ Todo.completed r = Todo.completed old.
Proof.
  destruct (saved_edit
              (Todo.mk (js "3") (js "Update my portfolio") (js "Add my recent projects")
                 false (js "2025-09-03T13:00:00Z") (js "2025-09-05T13:00:00Z"))
              (TodoItem.mkState true
                 (TodoItem.mkEditData (js " Polish my portfolio") (js "Add my recent projects  "))
                 FormErrors.empty)
              (js "3")
              (Updates.mk (Some (js "Polish my portfolio")) (Some (js "Add my recent projects"))
                 None)
              (initialWorld tickingClock calm))
    as (old & r & Hold & _ & Hdata & _ & Htitle & _ & _ & _ & Hcompleted & _).
  - vm_compute. reflexivity.
  - vm_compute. reflexivity.
  - exists old, r. split; [exact Hold |]. split; [exact Hdata |].
    split; [exact Htitle | exact Hcompleted].
Defined.

(** After a record has been written over the first one found under an
    id, the first record found under that id is the one written. *)
Lemma found_again (l : list Todo.t) (i : jsstring) (k k' : nat) (old r old' : Todo.t) :
  l !! k = Some old →
  i ∉ (Todo.id <$> take k l) →
  Todo.id r = i →
  <[k := r]> l !! k' = Some old' →
  Todo.id old' = i →
  i ∉ (Todo.id <$> take k' (<[k := r]> l)) →
  k' = k ∧ old' = r.
Proof.
  intros Hk Hfirst Hr Hk' Hold' Hfirst'.
  assert (k < length l)%nat as Hlt by (eapply lookup_lt_Some; eauto).
  assert (k' = k) as ->.
  { destruct (Nat.lt_trichotomy k' k) as [Hlt' | [Heq | Hgt]]; [| done |]; exfalso.
    - apply Hfirst. rewrite list_lookup_insert_ne in Hk' by lia.
      apply list_elem_of_fmap. exists old'. split; [done |].
      apply list_elem_of_lookup. exists k'. by rewrite lookup_take_lt by lia.
    - apply Hfirst'. apply list_elem_of_fmap. exists r. split; [done |].
      apply list_elem_of_lookup. exists k. rewrite lookup_take_lt by lia.
      by apply list_lookup_insert_eq. }
  split; [done |]. rewrite list_lookup_insert_eq in Hk' by done. congruence.
Qed.

(** X8: ticking the checkbox of a record and, once the page shows the
    updated record, ticking it again brings [completed] back to what the
    page showed at first and changes no other field but [updatedAt]. *)
Theorem toggled_twice (todo r1 : Todo.t) (w : World) :
  let first := updateTodo (App.withId (TodoItem.handleToggleComplete todo).1
                             (TodoItem.handleToggleComplete todo).2) w in
  let second := updateTodo (App.withId (TodoItem.handleToggleComplete r1).1
                              (TodoItem.handleToggleComplete r1).2) first.2 in
  success first.1 = true → data first.1 = Some r1 →
  success second.1 = true →
  ∃ r2 : Todo.t,
    data second.1 = Some r2
    ∧ Todo.completed r1 = negb (Todo.completed todo)
    ∧ Todo.completed r2 = Todo.completed todo
    ∧ Todo.id r2 = Todo.id todo
    ∧ Todo.title r2 = Todo.title r1
    ∧ Todo.description r2 = Todo.description r1
    ∧ Todo.createdAt r2 = Todo.createdAt r1.
Proof.
  cbv zeta. cbn [TodoItem.handleToggleComplete fst snd]. intros Hok1 Hdata1 Hok2.
  destruct (updateTodo_found _ _ Hok1) as (_ & k & old & Hk & Hid & Hfirst & Hd1 & Htodos1).
  destruct (updateTodo_found _ _ Hok2) as (_ & k' & old' & Hk' & Hid' & Hfirst' & Hd2 & _).
  rewrite Hdata1 in Hd1. injection Hd1 as Hr1.
  assert (Todo.id r1 = Todo.id todo) as Hidr1 by (by rewrite Hr1).
  rewrite <- Hr1 in Htodos1. rewrite Htodos1 in Hk', Hfirst'.
  cbn [App.withId UpdateTodoRequest.id] in Hid, Hfirst, Hid', Hfirst'.
  rewrite Hidr1 in Hid', Hfirst'.
  destruct (found_again (todos w) (Todo.id todo) k k' old r1 old' Hk Hfirst Hidr1 Hk' Hid' Hfirst')
    as [-> ->].
  eexists. split; [exact Hd2 |]. rewrite Hr1. cbn. by rewrite negb_involutive.
Qed.

Lemma toggled_twice_witness :
  ∃ r2 : Todo.t, Todo.completed r2 = true ∧ Todo.id r2 = js "2".
Proof.
  destruct (toggled_twice
              (Todo.mk (js "2") (js "Wait fo FC26 to be launched")
                 (js "Cant wait to see the new features") true
                 (js "2025-09-07T11:00:00Z") (js "2025-09-08T12:00:00Z"))
              (Todo.mk (js "2") (js "Wait fo FC26 to be launched")
                 (js "Cant wait to see the new features") false
                 (js "2025-09-07T11:00:00Z") (js "2025-09-01T11:00:00.000Z"))
              (initialWorld tickingClock calm))
    as (r2 & _ & _ & Hcompleted & Hid & _).
  - vm_compute. reflexivity.
  - vm_compute. reflexivity.
  - vm_compute. reflexivity.
  - exists r2. split; [exact Hcompleted | exact Hid].
Defined.

(** * The list view: components/TodoList.tsx *)

(** ** [sort] *)

Lemma insertSorted_Permutation {A} (compareFn : A → A → Z) (x : A) (l : list A) :
  insertSorted compareFn x l ≡ₚ x :: l.
Proof.
  induction l as [| y l IH]; [done |]. cbn [insertSorted].
  destruct (compareFn x y <=? 0)%Z; [done |]. by rewrite IH, Permutation_swap.
Qed.

(** Sorting rearranges: no item is lost, added or repeated. *)
Lemma Array_sort_Permutation {A} (compareFn : A → A → Z) (l : list A) :
  Array_sort compareFn l ≡ₚ l.
Proof.
  induction l as [| x l IH]; [done |]. unfold Array_sort in *. cbn [foldr].
  by rewrite insertSorted_Permutation, IH.
Qed.

Section sorted.
Context {A : Type} (compareFn : A → A → Z) (P : A → Prop) (R : relation A).
(** On the items at hand the comparator is consistent with an order: an
    item that does not come after another is related to it, and one that
    comes after has the other related to it. *)
Hypothesis before : ∀ a b, P a → P b → (compareFn a b <= 0)%Z → R a b.
Hypothesis after : ∀ a b, P a → P b → (0 < compareFn a b)%Z → R b a.



End sorted.

(** ** What is shown *)

Section list_view.
Variable localeCompare : jsstring → jsstring → Z.

Lemma shown_items_perm (todos : list Todo.t)
    (filter : TodoList.FilterType) (sortBy : TodoList.SortType) :
  TodoList.filteredAndSortedTodos localeCompare todos filter sortBy
  ≡ₚ base.filter (passes filter) todos.
Proof.
  unfold TodoList.filteredAndSortedTodos. cbv zeta.
  rewrite Array_sort_Permutation. destruct filter; cbn [passes]; [| done | done].
  induction todos as [| x l IH]; [done |]. by rewrite filter_cons_True, <- IH.
Qed.

(** X9: whatever the filter and the order chosen, the items shown are the
    records of the list that pass the filter, each as often as it is in
    the list, however [localeCompare] orders titles. *)
Theorem shown_items (todos : list Todo.t)
    (filter : TodoList.FilterType) (sortBy : TodoList.SortType) :
  TodoList.filteredAndSortedTodos localeCompare todos filter sortBy
  ≡ₚ base.filter (passes filter) todos
  ∧ ∀ r : Todo.t,
      r ∈ TodoList.filteredAndSortedTodos localeCompare todos filter sortBy
      ↔ r ∈ todos ∧ passes filter r.
Proof.
  pose proof (shown_items_perm todos filter sortBy) as Hperm.
  split; [exact Hperm |]. intros r.
  rewrite Hperm, list_elem_of_filter. tauto.
Qed.

(** *** By status *)

Lemma insertSorted_active (todo : Todo.t) (l : list Todo.t) :
  Todo.completed todo = false →
  insertSorted (TodoList.compareTodos localeCompare TodoList.status) todo l = todo :: l.
Proof.
  intros Hactive. destruct l as [| y l]; [done |]. cbn [insertSorted TodoList.compareTodos].
  rewrite Hactive. by destruct (Todo.completed y).
Qed.

Lemma insertSorted_completed (todo : Todo.t) (actives completeds : list Todo.t) :
  Todo.completed todo = true →
  Forall (λ r, Todo.completed r = false) actives →
  Forall (λ r, Todo.completed r = true) completeds →
  insertSorted (TodoList.compareTodos localeCompare TodoList.status) todo
    (actives ++ completeds)
  = actives ++ todo :: completeds.
Proof.
  intros Hdone Hactives Hcompleteds.
  induction Hactives as [| y actives Hy _ IH]; cbn [app insertSorted].
  - destruct Hcompleteds as [| z completeds Hz _]; [done |].
    cbn [insertSorted TodoList.compareTodos]. by rewrite Hdone, Hz.
  - cbn [TodoList.compareTodos]. rewrite Hdone, Hy. cbn. by rewrite IH.
Qed.

(** X10: sorted by status, the list shows the records that are not completed
    and then the completed ones, each group in the order the list had. *)
Theorem sorted_by_status (todos : list Todo.t) (filter : TodoList.FilterType) :
  TodoList.filteredAndSortedTodos localeCompare todos filter TodoList.status
  = base.filter (λ r, Todo.completed r = false) (base.filter (passes filter) todos)
    ++ base.filter (λ r, Todo.completed r = true) (base.filter (passes filter) todos).
Proof.
  unfold TodoList.filteredAndSortedTodos. cbv zeta.
  assert (match filter with
          | TodoList.all => todos
          | TodoList.active => base.filter (λ todo, Todo.completed todo = false) todos
          | TodoList.completed => base.filter (λ todo, Todo.completed todo = true) todos
          end = base.filter (passes filter) todos) as ->.
  { destruct filter; cbn [passes]; [| done | done].
    induction todos as [| x l IH]; [done |]. by rewrite filter_cons_True, <- IH. }
  generalize (base.filter (passes filter) todos) as l. clear todos filter.
  induction l as [| x l IH]; [done |].
  unfold Array_sort in *. cbn [foldr]. rewrite IH.
  destruct (Todo.completed x) eqn:Hx.
  - rewrite filter_cons_False, filter_cons_True by (by rewrite ?Hx).
    apply insertSorted_completed; [done | |]; apply Forall_forall;
      by intros r [? _]%list_elem_of_filter.
  - rewrite filter_cons_True, filter_cons_False by (by rewrite ?Hx).
    by apply insertSorted_active.
Qed.

(** *** By date *)


(** ** The counters and the messages *)

Lemma length_filter_completed (todos : list Todo.t) :
  length (base.filter (λ r, Todo.completed r = false) todos)
  + length (base.filter (λ r, Todo.completed r = true) todos)
  = length todos.
Proof.
  induction todos as [| x l IH]; [done |].
  destruct (Todo.completed x) eqn:Hx.
  - rewrite filter_cons_False, filter_cons_True by (by rewrite ?Hx). cbn [length]. lia.
  - rewrite filter_cons_True, filter_cons_False by (by rewrite ?Hx). cbn [length]. lia.
Qed.

(** X12: the three counters agree with the list: "Total" is its length,
    "Completed" and "Active" are the numbers of items shown under the
    filters of these names, in any order, and they add up to "Total". *)
Theorem counters (todos : list Todo.t) (sortBy : TodoList.SortType) :
  TodoList.Stats.total (TodoList.stats todos) = length todos
  ∧ TodoList.Stats.completed (TodoList.stats todos)
    = length (TodoList.filteredAndSortedTodos localeCompare todos TodoList.completed sortBy)
  ∧ TodoList.Stats.active (TodoList.stats todos)
    = length (TodoList.filteredAndSortedTodos localeCompare todos TodoList.active sortBy)
  ∧ TodoList.Stats.active (TodoList.stats todos)
    + TodoList.Stats.completed (TodoList.stats todos)
    = TodoList.Stats.total (TodoList.stats todos).
Proof.
  unfold TodoList.stats, TodoList.filteredAndSortedTodos. cbv zeta.
  cbn [TodoList.Stats.total TodoList.Stats.completed TodoList.Stats.active].
  rewrite !Array_sort_Permutation.
  pose proof (length_filter_completed todos). repeat split; lia.
Qed.

(** X13: for an empty list the view is the "No todos yet" panel.  Otherwise
    the message that no todo matches the filter is shown exactly when
    the filter is "active" and every record is completed, or "completed"
    and none is; it is never shown under "all". *)
Theorem no_match_message (todos : list Todo.t)
    (filter : TodoList.FilterType) (sortBy : TodoList.SortType) :
  match TodoList.render localeCompare todos filter sortBy with
  | TodoList.NoTodosYet => todos = []
  | TodoList.Listing _ items noMatch =>
      todos ≠ []
      ∧ items = TodoList.filteredAndSortedTodos localeCompare todos filter sortBy
      ∧ (noMatch = true ↔
         match filter with
         | TodoList.all => False
         | TodoList.active => Forall (λ r, Todo.completed r = true) todos
         | TodoList.completed => Forall (λ r, Todo.completed r = false) todos
         end)
  end.
Proof.
  unfold TodoList.render. case_bool_decide as Hempty; [by apply nil_length_inv |].
  cbv zeta. split; [by intros -> |]. split; [done |].
  rewrite andb_true_iff, !bool_decide_eq_true.
  rewrite (Permutation_length (shown_items_perm todos filter sortBy)).
  split.
  - intros [Hnone _]. apply nil_length_inv in Hnone.
    destruct filter; cbn [passes] in Hnone.
    + destruct todos; [done |]. by rewrite filter_cons_True in Hnone.
    + apply Forall_forall. intros r Hr.
      destruct (Todo.completed r) eqn:Hc; [done |].
      by destruct (filter_nil_not_elem_of _ _ r Hnone Hc).
    + apply Forall_forall. intros r Hr.
      destruct (Todo.completed r) eqn:Hc; [| done].
      by destruct (filter_nil_not_elem_of _ _ r Hnone Hc).
  - intros Hall. split; [| destruct todos; [done | cbn; lia]].
    destruct filter; [done | |];
      (induction Hall as [| r l Hr _ IH]; [done |]);
      rewrite filter_cons_False by (cbn [passes]; by rewrite Hr);
      (destruct l; [done | by apply IH]).
Qed.

End list_view.


(** * The page: App.tsx *)

Ltac run_handler :=
  cbv [App.step App.loadTodos_start App.loadTodos_resume App.handleCreateTodo_start
       App.handleCreateTodo_resume App.handleUpdateTodo_start App.handleUpdateTodo_resume
       App.handleDeleteTodo_start App.handleDeleteTodo_resume App.handleClearError
       App.try_catch_finally App.await App.setTodos App.setIsLoading App.setError
       App.setIsCreating App.setUpdatingTodoId App.setDeletingTodoId App.modify
       mbind App.UI_bind mret App.UI_ret];
  cbn [fst snd ui api AppState.todos AppState.isLoading AppState.error AppState.isCreating
       AppState.updatingTodoId AppState.deletingTodoId].

(** X14: no handler throws, so the "unexpected error" messages of the [catch]
    blocks are never shown, and neither are the fall-back messages: when
    the operation a step lets run fails, the page shows the [error] of
    its envelope and keeps its list; when it succeeds, the error cell is
    left alone.  A step that only starts a handler clears the error. *)
Theorem handlers_show_api_errors (s : App.Step) (p : Page) :
  (App.step s p).1 = inr ()
  ∧ match App.callOf s with
    | Some c =>
        api (App.step s p).2 = (invoke c (api p)).2
        ∧ AppState.error (ui (App.step s p).2)
          = (if succeeded (invoke c (api p)).1 then AppState.error (ui p)
             else replyError (invoke c (api p)).1)
        ∧ (succeeded (invoke c (api p)).1 = false →
           AppState.todos (ui (App.step s p).2) = AppState.todos (ui p))
    | None =>
        api (App.step s p).2 = api p
        ∧ AppState.error (ui (App.step s p).2) = None
        ∧ AppState.todos (ui (App.step s p).2) = AppState.todos (ui p)
    end.
Proof.
  destruct s as [| | | todoData | i | i updates | i | i |]; cbn [App.callOf invoke];
    try (by run_handler).
  - run_handler. rewrite createTodo_eq. by destruct (injected (api p)).
  - run_handler. rewrite updateTodo_eq. destruct (injected (api p)); [done |].
    cbv zeta. destruct (_ =? -1)%Z; [done |]. by destruct (index _ _).
  - run_handler. rewrite deleteTodo_eq. destruct (injected (api p)); [done |].
    cbv zeta. by destruct (_ =? -1)%Z.
Qed.

(** ** The list of the page and the store *)

(** With distinct ids, writing over the record found under an id is
    writing over every record under that id ... *)
Lemma insert_as_map (l : list Todo.t) (k : nat) (old r : Todo.t) :
  NoDup (Todo.id <$> l) → l !! k = Some old →
  <[k := r]> l = (λ todo, if strictEq (Todo.id todo) (Todo.id old) then r else todo) <$> l.
Proof.
  intros Hnodup Hk. apply list_eq. intros j.
  rewrite list_lookup_fmap. destruct (decide (j = k)) as [-> | Hne].
  - rewrite list_lookup_insert_eq by (eapply lookup_lt_Some; eauto).
    rewrite Hk. cbn. by rewrite (proj2 (strictEq_true _ _) eq_refl).
  - rewrite list_lookup_insert_ne by done.
    destruct (l !! j) as [x |] eqn:Hj; [| done]. cbn.
    destruct (strictEq (Todo.id x) (Todo.id old)) eqn:Heq; [| done].
    apply strictEq_true in Heq. exfalso. apply Hne.
    eapply (NoDup_lookup _ _ _ _ Hnodup); rewrite list_lookup_fmap; [by rewrite Hj | by rewrite Hk, Heq].
Qed.

Lemma filter_all {A} (P : A → Prop) `{!∀ x, Decision (P x)} (l : list A) :
  Forall P l → filter P l = l.
Proof.
  induction 1 as [| x l Hx _ IH]; [done |]. by rewrite filter_cons_True, IH.
Qed.

(** ... and removing it is removing every record under that id. *)
Lemma delete_as_filter (l : list Todo.t) (k : nat) (old : Todo.t) :
  NoDup (Todo.id <$> l) → l !! k = Some old →
  take k l ++ drop (S k) l = filter (λ todo, Todo.id todo ≠ Todo.id old) l.
Proof.
  intros Hnodup Hk.
  rewrite <- (take_drop_middle l k old Hk) in Hnodup.
  rewrite <- (take_drop_middle l k old Hk) at 3.
  rewrite fmap_app, fmap_cons in Hnodup.
  apply NoDup_app in Hnodup as (_ & Hleft & [Hright _]%NoDup_cons).
  rewrite filter_app, filter_cons_False by (intros H; by apply H).
  f_equal; symmetry; apply filter_all, Forall_forall; intros x Hx Heq.
  - apply (Hleft (Todo.id x)); [apply list_elem_of_fmap; eauto |].
    rewrite Heq. apply list_elem_of_here.
  - apply Hright. rewrite <- Heq. apply list_elem_of_fmap; eauto.
Qed.

(** One step keeps the list of the page a rearrangement of the store. *)
Lemma step_in_sync (s : App.Step) (p : Page) :
  NoDup (ids (api p)) →
  createsFreshIds (callsOf [s]) (api p) = true →
  AppState.todos (ui p) ≡ₚ todos (api p) →
  AppState.todos (ui (App.step s p).2) ≡ₚ todos (api (App.step s p).2).
Proof.
  intros Hnodup Hfresh Hsync.
  destruct s as [| | | todoData | i | i updates | i | i |]; try (by run_handler).
  - run_handler. rewrite createTodo_eq. destruct (injected (api p)); [done |].
    cbn [success data fst snd ui api AppState.todos todos].
    rewrite Hsync. apply Permutation_cons_append.
  - destruct (success (updateTodo (App.withId i updates) (api p)).1) eqn:Hok.
    + destruct (updateTodo_found _ _ Hok) as (_ & k & old & Hk & Hid & _ & Hdata & Htodos).
      run_handler. destruct (updateTodo _ (api p)) as [response w1].
      cbn [fst snd] in *. rewrite Hok, Hdata. cbn [fst snd ui api AppState.todos].
      rewrite Htodos, (insert_as_map _ _ _ _ Hnodup Hk), Hid.
      by rewrite Hsync.
    + pose proof (updateTodo_failure_keeps_todos _ _ Hok) as Hkeep.
      run_handler. destruct (updateTodo _ (api p)) as [response w1].
      cbn [fst snd] in *. rewrite Hok. cbn [fst snd ui api AppState.todos]. by rewrite Hkeep.
  - run_handler. rewrite deleteTodo_eq. destruct (injected (api p)); [done |].
    cbv zeta. destruct (todoIndexOf_cases i (api p)) as [[-> _] | (k & r & -> & Hk & Hid & _)];
      [done |].
    replace (Z.of_nat k =? -1)%Z with false by (symmetry; apply Z.eqb_neq; lia).
    cbn [success fst snd ui api AppState.todos todos].
    rewrite splice_one by (eapply lookup_lt_Some; eauto).
    rewrite (delete_as_filter _ _ _ Hnodup Hk), Hid. by rewrite Hsync.
Qed.

(** The store after a step is the store after the call the step lets run. *)
Lemma step_api (s : App.Step) (p : Page) :
  api (App.step s p).2 = run (callsOf [s]) (api p).
Proof.
  destruct s as [| | | todoData | i | i updates | i | i |]; try (by run_handler);
    run_handler; unfold callsOf; cbn [omap list_omap App.callOf run invoke prod_map fst snd].
  - destruct (createTodo todoData (api p)) as [[[] [?|] ? ?] ?]; reflexivity.
  - destruct (updateTodo _ (api p)) as [[[] [?|] ? ?] ?]; reflexivity.
  - destruct (deleteTodo i (api p)) as [[[] ? ? ?] ?]; reflexivity.
Qed.

Lemma steps_in_sync (l : list App.Step) (p : Page) :
  NoDup (ids (api p)) →
  createsFreshIds (callsOf l) (api p) = true →
  AppState.todos (ui p) ≡ₚ todos (api p) →
  AppState.todos (ui (App.steps l p)) ≡ₚ todos (api (App.steps l p)).
Proof.
  revert p. induction l as [| s l IH]; intros p Hnodup Hfresh Hsync; [done |].
  cbn [App.steps].
  assert (createsFreshIds (callsOf [s]) (api p) = true
          ∧ createsFreshIds (callsOf l) (api (App.step s p).2) = true) as [Hs Hl].
  { rewrite step_api. unfold callsOf in *. cbn [omap list_omap] in *.
    destruct (App.callOf s) as [c |]; [| done]. cbn [createsFreshIds run] in *.
    apply andb_true_iff in Hfresh as [Hc Hrest]. by rewrite Hc. }
  apply IH; [| done | by apply step_in_sync].
  rewrite step_api. unfold callsOf in *. cbn [omap list_omap] in *.
  destruct (App.callOf s) as [c |]; [| done]. cbn [run].
  by apply invoke_keeps_ids_distinct.
Qed.

(** X15: once the first load has come back, the list of the page holds the
    records of the store, each once, whatever handlers start and resume
    afterwards and in whatever order, as long as every id a create
    generates is new to the store. *)
Theorem page_in_sync (clock : nat → Z) (random : nat → RandomDraw) (l : list App.Step) :
  createsFreshIds (callsOf l) (initialWorld clock random) = true →
  AppState.todos (ui (App.steps (App.LoadResume :: l) (App.mounted clock random)))
  ≡ₚ todos (api (App.steps (App.LoadResume :: l) (App.mounted clock random))).
Proof.
  intros Hfresh. cbn [App.steps].
  apply steps_in_sync.
  - rewrite step_api. apply seed_ids_distinct.
  - by rewrite step_api.
  - by run_handler.
Qed.

Lemma page_in_sync_witness :
  AppState.todos
    (ui (App.steps [App.LoadResume; App.CreateStart; App.DeleteStart (js "2");
                    App.CreateResume buyMilk; App.DeleteResume (js "2");
                    App.UpdateStart (js "1");
                    App.UpdateResume (js "1") (Updates.mk None None (Some true))]
           (App.mounted tickingClock calm)))
  ≡ₚ todos
       (api (App.steps [App.LoadResume; App.CreateStart; App.DeleteStart (js "2");
                        App.CreateResume buyMilk; App.DeleteResume (js "2");
                        App.UpdateStart (js "1");
                        App.UpdateResume (js "1") (Updates.mk None None (Some true))]
               (App.mounted tickingClock calm))).
Proof.
  apply (page_in_sync tickingClock calm). vm_compute. reflexivity.
Defined.

(** A load that comes back puts the store's list on the page, in the
    store's order, and ends the loading state; it cannot fail. *)
Lemma load_shows_the_store (p : Page) :
  AppState.todos (ui (App.step App.LoadResume p).2) = todos (api p)
  ∧ AppState.isLoading (ui (App.step App.LoadResume p).2) = false
  ∧ AppState.error (ui (App.step App.LoadResume p).2) = AppState.error (ui p)
  ∧ api (App.step App.LoadResume p).2 = api p.
Proof. by run_handler. Qed.



Lemma handlers_show_api_errors_witness :
  AppState.error (ui (App.step (App.DeleteResume (js "404"))
                        (App.step App.LoadResume (App.mounted tickingClock calm)).2).2)
  = Some (js "Todo not found")
  ∧ AppState.todos (ui (App.step (App.DeleteResume (js "404"))
                          (App.step App.LoadResume (App.mounted tickingClock calm)).2).2)
    = seed.
Proof.
  destruct (handlers_show_api_errors (App.DeleteResume (js "404"))
              (App.step App.LoadResume (App.mounted tickingClock calm)).2)
    as (_ & _ & Herror & Htodos).
  split; [exact Herror |]. apply Htodos. vm_compute. reflexivity.
Defined.

(** ** The "Updated:" line of an item *)

(** X17: for a record that has just been created, the item shows the
    "Updated:" line exactly when the clock moved on between the two
    stamps [createTodo] takes. *)
Theorem updated_line_of_a_new_record (todoData : CreateTodoRequest.t) (w : World) (r : Todo.t) :
  timeValue (clock w (S (clockReads w))) →
  timeValue (clock w (S (S (clockReads w)))) →
  data (createTodo todoData w).1 = Some r →
  TodoItem.showsUpdated r = true
  ↔ clock w (S (clockReads w)) ≠ clock w (S (S (clockReads w))).
Proof.
  intros H1 H2 Hdata. unfold TodoItem.showsUpdated.
  rewrite negb_true_iff, strictEq_false.
  pose proof (createTodo_stamps todoData w r H1 H2 Hdata) as Hstamps.
  split; intros Hne Heq; apply Hne.
  - symmetry. by apply Hstamps.
  - apply Hstamps. by symmetry.
Qed.

Lemma updated_line_of_a_new_record_witness :
  TodoItem.showsUpdated (newTodo buyMilk (initialWorld tickingClock calm)) = true.
Proof.
  apply (updated_line_of_a_new_record buyMilk (initialWorld tickingClock calm)).
  - vm_compute. split; discriminate.
  - vm_compute. split; discriminate.
  - vm_compute. reflexivity.
  - vm_compute. discriminate.
Defined.
